(** * Card maker (src/App.tsx): numeric helpers, input state and canvas rendering

    A shallow embedding of the pure helpers [fitContain] and [roundRect], of
    the React state of [App] with its event handlers, and of the redraw
    effect as the sequence of canvas calls it makes, followed by the
    properties checked against the specification. *)

From Stdlib Require Import ZArith QArith Qminmax Lqa Lia Bool.
From Stdlib Require Import Floats.
From Stdlib Require Uint63.
From Stdlib Require Import Ascii String.
From stdpp Require Import base list.

Set Default Proof Using "Type".
Set Warnings "-inexact-float".

(** ** JavaScript numbers

    The helpers are written once over an interface of the arithmetic they
    use.  The instance [float_number] is what the program runs on: IEEE-754
    binary64, the JavaScript [number].  The instance [Q_number] reads the same
    code in exact rational arithmetic. *)

Class JSNumber (A : Type) := {
  num_add : A -> A -> A;
  num_sub : A -> A -> A;
  num_mul : A -> A -> A;
  num_div : A -> A -> A;
  (** [a > b] *)
  num_gtb : A -> A -> bool;
  (** [Math.min(a, b)] *)
  Math_min : A -> A -> A;
  (** an integer literal, or a loop counter used as a number *)
  num_lit : Z -> A
}.

Declare Scope num_scope.
Delimit Scope num_scope with num.
Infix "+" := num_add : num_scope.
Infix "-" := num_sub : num_scope.
Infix "*" := num_mul : num_scope.
Infix "/" := num_div : num_scope.
Infix ">?" := num_gtb (at level 70, no associativity) : num_scope.

(** [Math.min] on doubles: NaN if either argument is NaN, and [-0] counts as
    smaller than [+0]. *)
Definition float_min (a b : float) : float :=
  if (is_nan a || is_nan b)%bool then nan
  else if (a <? b)%float then a
  else if (b <? a)%float then b
  else if (is_zero a && get_sign a)%bool then a
  else b.

(** Integer literals of the source; all are far below 2^53, hence exact. *)
Definition float_of_Z (z : Z) : float :=
  match z with
  | Z0 => PrimFloat.zero
  | Zpos _ => PrimFloat.of_uint63 (Uint63.of_Z z)
  | Zneg _ => (- PrimFloat.of_uint63 (Uint63.of_Z (Z.opp z)))%float
  end.

#[export] Instance float_number : JSNumber float := {|
  num_add := PrimFloat.add;
  num_sub := PrimFloat.sub;
  num_mul := PrimFloat.mul;
  num_div := PrimFloat.div;
  num_gtb := fun a b => (b <? a)%float;
  Math_min := float_min;
  num_lit := float_of_Z
|}.

#[export] Instance Q_number : JSNumber Q := {|
  num_add := Qplus;
  num_sub := Qminus;
  num_mul := Qmult;
  num_div := Qdiv;
  num_gtb := fun a b => negb (Qle_bool a b);
  Math_min := Qmin;
  num_lit := inject_Z
|}.

(** The object [{ w, h, x, y }] returned by [fitContain]. *)
Module Fit.
Record t (A : Type) := mk { w : A; h : A; x : A; y : A }.
Arguments mk {A}.
Arguments w {A}.
Arguments h {A}.
Arguments x {A}.
Arguments y {A}.
End Fit.

Section Helpers.
Context {A : Type} `{JSNumber A}.
Local Open Scope num_scope.

(** [function fitContain(srcW, srcH, dstW, dstH)] *)
Definition fitContain (srcW srcH dstW dstH : A) : Fit.t A :=
  let ratio := Math_min (dstW / srcW) (dstH / srcH) in
  let w := srcW * ratio in
  let h := srcH * ratio in
  Fit.mk w h ((dstW - w) / num_lit 2) ((dstH - h) / num_lit 2).

(** The first two statements of [roundRect]:
    [const min = Math.min(w, h); if (r > min / 2) r = min / 2;]
    The result is the value of [r] that the drawing calls then use. *)
Definition clampRadius (w h r : A) : A :=
  let min := Math_min w h in
  if r >? min / num_lit 2 then min / num_lit 2 else r.

End Helpers.

(** ** JavaScript strings and arrays *)

(** A string is its sequence of UTF-16 code units. *)
Definition code_unit := N.
Abbreviation jsstring := (list code_unit).

(** An ASCII literal of the source as a JavaScript string. *)
Definition js (s : string) : jsstring :=
  map (fun a => N_of_ascii a) (list_ascii_of_string s).

(** [s.slice(start, end)]: negative positions count from the end, positions
    are clamped to the string, and an empty span gives the empty string. *)
Definition slice {T : Type} (s : list T) (start end_ : Z) : list T :=
  let len := Z.of_nat (length s) in
  let from := if (start <? 0)%Z then Z.max (len + start) 0 else Z.min start len in
  let to := if (end_ <? 0)%Z then Z.max (len + end_) 0 else Z.min end_ len in
  take (Z.to_nat (to - from)) (drop (Z.to_nat from) s).

(** Truthiness of a string: only the empty string is falsy. *)
Definition truthy (s : jsstring) : bool :=
  match s with
  | [] => false
  | _ :: _ => true
  end.

(** [a || b] on strings. *)
Definition str_or (a b : jsstring) : jsstring :=
  if truthy a then a else b.

(** [a || b] where [a] may be [undefined] ([None]). *)
Definition undef_or (a : option jsstring) (b : jsstring) : jsstring :=
  match a with
  | Some s => str_or s b
  | None => b
  end.

(** An array of strings; [None] is a hole, which reads as [undefined]. *)
Abbreviation jsarray := (list (option jsstring)).

(** [a[i]]: [undefined] for a hole and for an index past the end. *)
Definition array_get (a : jsarray) (i : nat) : option jsstring :=
  match a !! i with
  | Some v => v
  | None => None
  end.

(** [a[i] = v] on a copy: an index past the end extends the array, leaving
    holes in between. *)
Definition array_set (a : jsarray) (i : nat) (v : jsstring) : jsarray :=
  if decide (i < length a) then <[i := Some v]> a
  else a ++ replicate (i - length a) None ++ [Some v].

(** [Array(n).fill(v)] *)
Definition Array_fill (n : nat) (v : jsstring) : jsarray :=
  replicate n (Some v).

(** ** Constants and component state *)

Inductive FrameStyle := neo | classic | dark | holo.

Definition CANVAS_W : float := 720.
Definition CANVAS_H : float := 1136.

(** The nine preset races, as UTF-16 code units. *)
Definition DEFAULT_RACES : list jsstring :=
  [ [0x9b54; 0x65cf]; [0x4eba; 0x9593]; [0x7363]; [0x6a5f; 0x68b0];
    [0x4e0d; 0x6b7b]; [0x7cbe; 0x970a]; [0x9f8d]; [0x5929; 0x4f7f];
    [0x60aa; 0x9b54] ]%N.

(** The [useState] cells of [App]. *)
Record State := mkState {
  frame : FrameStyle;
  classCount : nat;
  title : jsstring;
  username : jsstring;
  monsterName : jsstring;
  exName : jsstring;
  battleMeme : jsstring;
  racePreset : jsstring;
  raceCustom : jsstring;
  techniques : jsarray;
  useDefaultIllust : bool;
  uploadURL : option jsstring;
  checker : option jsstring
}.

(** The initial values given to [useState]; the initial title is the six
    code units of the sample title. *)
Definition initial : State := {|
  frame := neo;
  classCount := 1;
  title := [0x9b54; 0x738b; 0x30b9; 0x30df; 0x30ce; 0x30d5]%N;
  username := [];
  monsterName := [];
  exName := [];
  battleMeme := [];
  racePreset := default [] (DEFAULT_RACES !! 0);
  raceCustom := [];
  techniques := Array_fill 24 [];
  useDefaultIllust := true;
  uploadURL := None;
  checker := None
|}.

(** The state setters. *)
Definition setFrame (v : FrameStyle) (s : State) : State :=
  mkState v (classCount s) (title s) (username s) (monsterName s) (exName s)
    (battleMeme s) (racePreset s) (raceCustom s) (techniques s)
    (useDefaultIllust s) (uploadURL s) (checker s).
Definition setClassCount (v : nat) (s : State) : State :=
  mkState (frame s) v (title s) (username s) (monsterName s) (exName s)
    (battleMeme s) (racePreset s) (raceCustom s) (techniques s)
    (useDefaultIllust s) (uploadURL s) (checker s).
Definition setTitle (v : jsstring) (s : State) : State :=
  mkState (frame s) (classCount s) v (username s) (monsterName s) (exName s)
    (battleMeme s) (racePreset s) (raceCustom s) (techniques s)
    (useDefaultIllust s) (uploadURL s) (checker s).
Definition setUsername (v : jsstring) (s : State) : State :=
  mkState (frame s) (classCount s) (title s) v (monsterName s) (exName s)
    (battleMeme s) (racePreset s) (raceCustom s) (techniques s)
    (useDefaultIllust s) (uploadURL s) (checker s).
Definition setMonsterName (v : jsstring) (s : State) : State :=
  mkState (frame s) (classCount s) (title s) (username s) v (exName s)
    (battleMeme s) (racePreset s) (raceCustom s) (techniques s)
    (useDefaultIllust s) (uploadURL s) (checker s).
Definition setExName (v : jsstring) (s : State) : State :=
  mkState (frame s) (classCount s) (title s) (username s) (monsterName s) v
    (battleMeme s) (racePreset s) (raceCustom s) (techniques s)
    (useDefaultIllust s) (uploadURL s) (checker s).
Definition setBattleMeme (v : jsstring) (s : State) : State :=
  mkState (frame s) (classCount s) (title s) (username s) (monsterName s)
    (exName s) v (racePreset s) (raceCustom s) (techniques s)
    (useDefaultIllust s) (uploadURL s) (checker s).
Definition setRacePreset (v : jsstring) (s : State) : State :=
  mkState (frame s) (classCount s) (title s) (username s) (monsterName s)
    (exName s) (battleMeme s) v (raceCustom s) (techniques s)
    (useDefaultIllust s) (uploadURL s) (checker s).
Definition setRaceCustom (v : jsstring) (s : State) : State :=
  mkState (frame s) (classCount s) (title s) (username s) (monsterName s)
    (exName s) (battleMeme s) (racePreset s) v (techniques s)
    (useDefaultIllust s) (uploadURL s) (checker s).
Definition setTechniques (v : jsarray) (s : State) : State :=
  mkState (frame s) (classCount s) (title s) (username s) (monsterName s)
    (exName s) (battleMeme s) (racePreset s) (raceCustom s) v
    (useDefaultIllust s) (uploadURL s) (checker s).
Definition setUseDefaultIllust (v : bool) (s : State) : State :=
  mkState (frame s) (classCount s) (title s) (username s) (monsterName s)
    (exName s) (battleMeme s) (racePreset s) (raceCustom s) (techniques s)
    v (uploadURL s) (checker s).
Definition setUploadURL (v : option jsstring) (s : State) : State :=
  mkState (frame s) (classCount s) (title s) (username s) (monsterName s)
    (exName s) (battleMeme s) (racePreset s) (raceCustom s) (techniques s)
    (useDefaultIllust s) v (checker s).
Definition setChecker (v : option jsstring) (s : State) : State :=
  mkState (frame s) (classCount s) (title s) (username s) (monsterName s)
    (exName s) (battleMeme s) (racePreset s) (raceCustom s) (techniques s)
    (useDefaultIllust s) (uploadURL s) v.

(** [handleTechniqueChange(index, value)]: the functional update
    [prev => { const next = [...prev]; next[index] = value; return next; }]. *)
Definition handleTechniqueChange (index : nat) (value : jsstring) (s : State) : State :=
  setTechniques (array_set (techniques s) index value) s.

(** The [onClick] of the reset button, setter by setter. *)
Definition reset (s : State) : State :=
  let s := setTitle [] s in
  let s := setUsername [] s in
  let s := setMonsterName [] s in
  let s := setExName [] s in
  let s := setBattleMeme [] s in
  let s := setRacePreset (default [] (DEFAULT_RACES !! 0)) s in
  let s := setRaceCustom [] s in
  let s := setTechniques (Array_fill 24 []) s in
  let s := setUseDefaultIllust true s in
  setUploadURL None s.

(** [illustSrc]: the [useMemo] selecting the illustration source. *)
Definition illustSrc (s : State) : option jsstring :=
  if useDefaultIllust s then checker s
  else match uploadURL s with
       | Some u => if truthy u then Some u else checker s
       | None => checker s
       end.

(** What the rendered controls can deliver. *)
Inductive Event :=
  | ClickFrame (f : FrameStyle)
  | ChangeClassCount (n : nat)
  | ChangeTitle (v : jsstring)
  | ChangeUsername (v : jsstring)
  | ChangeMonsterName (v : jsstring)
  | ChangeExName (v : jsstring)
  | ChangeBattleMeme (v : jsstring)
  | ChangeRacePreset (v : jsstring)
  | ChangeRaceCustom (v : jsstring)
  | ChangeTechnique (c r : nat) (v : jsstring)
  | ChooseIllust (useDefault : bool)
  | UploadLoaded (url : jsstring)
  | CheckerMade (url : jsstring)
  | ClickReset.

(** The guards come from the markup: the range input has [min={1} max={4}],
    the select offers [DEFAULT_RACES], and technique inputs exist for
    [classCount] columns of 6 rows. *)
Definition enabled (e : Event) (s : State) : Prop :=
  match e with
  | ChangeClassCount n => 1 <= n <= 4
  | ChangeRacePreset v => v ∈ DEFAULT_RACES
  | ChangeTechnique c r _ => c < classCount s /\ r < 6
  | _ => True
  end.

Definition handle (e : Event) (s : State) : State :=
  match e with
  | ClickFrame f => setFrame f s
  | ChangeClassCount n => setClassCount n s
  | ChangeTitle v => setTitle v s
  | ChangeUsername v => setUsername v s
  | ChangeMonsterName v => setMonsterName v s
  | ChangeExName v => setExName v s
  | ChangeBattleMeme v => setBattleMeme v s
  | ChangeRacePreset v => setRacePreset v s
  | ChangeRaceCustom v => setRaceCustom v s
  | ChangeTechnique c r v => handleTechniqueChange (c * 6 + r) v s
  | ChooseIllust b => setUseDefaultIllust b s
  | UploadLoaded url => setUploadURL (Some url) s
  | CheckerMade url => setChecker (Some url) s
  | ClickReset => reset s
  end.

(** The states the component can be in. *)
Inductive reachable : State -> Prop :=
  | reachable_initial : reachable initial
  | reachable_handle s e :
      reachable s -> enabled e s -> reachable (handle e s).

(** ** The canvas

    A redraw is the sequence of calls and property assignments it makes on
    the 2D context. *)

(** A decoded image, with its intrinsic size. *)
Module Image.
Record t := mk { width : N; height : N }.
End Image.

Module Ctx.
Record gradient := createLinearGradient {
  x0 : float; y0 : float; x1 : float; y1 : float;
  (** the [addColorStop] calls, in order *)
  stops : list (float * string)
}.
Inductive paint :=
  | color (c : string)
  | linear (g : gradient).
Inductive cmd :=
  | save
  | restore
  | clearRect (x y w h : float)
  | fillRect (x y w h : float)
  | strokeRect (x y w h : float)
  | beginPath
  | moveTo (x y : float)
  | arcTo (x1 y1 x2 y2 r : float)
  | closePath
  | fill
  | stroke
  | fillStyle (p : paint)
  | strokeStyle (p : paint)
  | lineWidth (w : float)
  | globalAlpha (a : float)
  | font (f : string)
  | textAlign (a : string)
  | textBaseline (b : string)
  | fillText (t : jsstring) (x y : float)
  | drawImage (img : Image.t) (x y w h : float).
End Ctx.

Local Open Scope float_scope.

(** A non-negative integer (a loop counter, an image size) as a number. *)
Definition num (n : N) : float := float_of_Z (Z.of_N n).

(** [function roundRect(ctx, x, y, w, h, r, fill, stroke)] *)
Definition roundRect (x y w h r : float) (fill stroke : bool) : list Ctx.cmd :=
  let r := clampRadius w h r in
  [ Ctx.beginPath;
    Ctx.moveTo (x + r) y;
    Ctx.arcTo (x + w) y (x + w) (y + h) r;
    Ctx.arcTo (x + w) (y + h) x (y + h) r;
    Ctx.arcTo x (y + h) x y r;
    Ctx.arcTo x y (x + w) y r;
    Ctx.closePath ]
  ++ (if fill then [Ctx.fill] else [])
  ++ (if stroke then [Ctx.stroke] else []).

(** [function drawFrame(ctx, style)] *)
Definition drawFrame (style : FrameStyle) : list Ctx.cmd :=
  let bg := Ctx.createLinearGradient 0 0 0 CANVAS_H
    match style with
    | neo => [(0, "#0f172a"%string); (1, "#020617"%string)]
    | classic => [(0, "#3b2f2f"%string); (1, "#1f1b16"%string)]
    | dark => [(0, "#111827"%string); (1, "#000000"%string)]
    | holo => [(0, "#0c1027"%string); (1, "#1a365d"%string)]
    end in
  let pad := 18 in
  let r := 28 in
  let grd := Ctx.createLinearGradient 0 pad 0 (CANVAS_H - pad)
    match style with
    | classic => [(0, "#ffe1ad"%string); (1, "#8b5a2b"%string)]
    | dark => [(0, "#9ca3af"%string); (1, "#111827"%string)]
    | neo => [(0, "#67e8f9"%string); (1, "#0ea5e9"%string)]
    | holo => [(0, "#a78bfa"%string); (1, "#22d3ee"%string)]
    end in
  [ Ctx.save;
    Ctx.clearRect 0 0 CANVAS_W CANVAS_H;
    Ctx.fillStyle (Ctx.linear bg);
    Ctx.fillRect 0 0 CANVAS_W CANVAS_H;
    Ctx.fillStyle (Ctx.color match style with
                              | classic => "#9a6b3d"
                              | dark => "#2f2f2f"
                              | _ => "#1f2937"
                              end%string) ]
  ++ roundRect pad pad (CANVAS_W - pad * 2) (CANVAS_H - pad * 2) r true false
  ++ [ Ctx.lineWidth 8; Ctx.strokeStyle (Ctx.linear grd) ]
  ++ roundRect (pad + 6) (pad + 6) (CANVAS_W - (pad + 6) * 2)
       (CANVAS_H - (pad + 6) * 2) (r - 8) false true
  ++ [ Ctx.restore ].

(** *** 2) illustration area *)
Definition illPad : float := 48.
Definition illX : float := illPad.
Definition illY : float := 180.
Definition illW : float := CANVAS_W - illPad * 2.
Definition illH : float := 580.

Definition drawIllustration (illustImg : option Image.t) : list Ctx.cmd :=
  [ Ctx.save; Ctx.fillStyle (Ctx.color "rgba(0,0,0,0.45)") ]
  ++ roundRect illX illY illW illH 24 true false
  ++ match illustImg with
     | Some img =>
         let fit := fitContain (num (Image.width img)) (num (Image.height img)) illW illH in
         [ Ctx.drawImage img (illX + Fit.x fit) (illY + Fit.y fit) (Fit.w fit) (Fit.h fit) ]
     | None =>
         [ Ctx.fillStyle (Ctx.color "#cbd5e1");
           Ctx.font "24px system-ui, -apple-system, Segoe UI, Roboto";
           Ctx.textAlign "center";
           Ctx.fillText (js "Illustration") (illX + illW / 2) (illY + illH / 2) ]
     end
  ++ [ Ctx.restore ].

(** *** 3) header strip *)
Definition headerH : float := 132.
Definition headerX : float := 32.
Definition headerY : float := 64.
Definition headerW : float := CANVAS_W - headerX * 2.
Definition tagMarginRight : float := 40.

(** [(raceCustom || racePreset || "").slice(0, 6)] *)
Definition raceText (s : State) : jsstring :=
  slice (str_or (str_or (raceCustom s) (racePreset s)) []) 0 6.

(** [tagW], [tagH] and [reservedRight] start at 0 and are assigned in
    [if (raceText) { ... }]. *)
Definition tagW (s : State) : float :=
  if truthy (raceText s) then 64 else 0.
Definition tagH (s : State) : float :=
  if truthy (raceText s) then headerH - 16 else 0.
Definition reservedRight (s : State) : float :=
  if truthy (raceText s) then tagW s + tagMarginRight + 8 else 0.

Definition drawHeader (s : State) : list Ctx.cmd :=
  let grad := Ctx.createLinearGradient headerX headerY headerX (headerY + headerH)
                [(0, "#111827"%string); (1, "#0b1220"%string)] in
  [ Ctx.save; Ctx.fillStyle (Ctx.linear grad) ]
  ++ roundRect headerX headerY headerW headerH 16 true false
  ++ [ Ctx.fillStyle (Ctx.color "#e5e7eb");
       Ctx.textBaseline "middle";
       Ctx.font "bold 22px system-ui, -apple-system, Segoe UI, Roboto";
       Ctx.textAlign "left";
       Ctx.fillText (str_or (title s) []) (headerX + 16) (headerY + 34);
       Ctx.textAlign "right";
       Ctx.fillText (str_or (username s) [])
         (headerX + headerW - 16 - reservedRight s) (headerY + 34);
       Ctx.textAlign "center";
       Ctx.font "bold 40px system-ui, -apple-system, Segoe UI, Roboto";
       Ctx.fillText (str_or (monsterName s) [])
         (headerX + headerW / 2) (headerY + headerH / 2 + 22) ]
  ++ (if truthy (raceText s) then
        [ Ctx.fillStyle (Ctx.color "#ef4444") ]
        ++ roundRect (CANVAS_W - tagW s - tagMarginRight) (headerY + 8)
             (tagW s) (tagH s) 8 true false
        ++ [ Ctx.fillStyle (Ctx.color "#fff");
             Ctx.font "bold 24px system-ui, -apple-system, Segoe UI, Roboto";
             Ctx.textAlign "center";
             Ctx.textBaseline "middle";
             Ctx.fillText (raceText s)
               (CANVAS_W - tagW s / 2 - tagMarginRight) (headerY + headerH / 2) ]
      else [])
  ++ [ Ctx.restore ].

(** *** 4) info labels *)
Definition baseX : float := 48.
Definition line : float := 26.

Definition drawLabels (s : State) : list Ctx.cmd :=
  let y := illY + illH + 36 in
  [ Ctx.save;
    Ctx.fillStyle (Ctx.color "#e5e7eb");
    Ctx.font "20px system-ui, -apple-system, Segoe UI, Roboto";
    Ctx.textAlign "left";
    Ctx.textBaseline "alphabetic" ]
  ++ (if truthy (exName s) then [ Ctx.fillText (js "EX: " ++ exName s) baseX y ] else [])
  ++ (let y := if truthy (exName s) then y + line else y in
      if truthy (battleMeme s)
      then [ Ctx.fillText (js "Battle Meme: " ++ battleMeme s) baseX y ]
      else [])
  ++ [ Ctx.restore ].

(** *** 5) techniques grid: [classCount] columns x 6 rows *)
Definition rows : nat := 6.
Definition gridW : float := CANVAS_W - 96.
Definition gridH : float := 240.
Definition gx : float := 48.
Definition gy : float := CANVAS_H - gridH - 64.
Definition cellW (cols : nat) : float := gridW / num (N.of_nat cols).
Definition cellH : float := gridH / num (N.of_nat rows).

(** The body of the inner loop, for column [c] and row [r]. *)
Definition drawCell (techniques : jsarray) (cols c r : nat) : list Ctx.cmd :=
  let index := (c * rows + r)%nat in
  let x := gx + num (N.of_nat c) * cellW cols in
  let y2 := gy + num (N.of_nat r) * cellH in
  let t := slice (undef_or (array_get techniques index) []) 0 18 in
  [ Ctx.strokeStyle (Ctx.color "#475569");
    Ctx.lineWidth 1;
    Ctx.strokeRect x y2 (cellW cols) cellH;
    Ctx.fillStyle (Ctx.color "#e5e7eb");
    Ctx.fillText t (x + 8) (y2 + cellH / 2) ].

(** [for (let c = 0; c < cols; c++) for (let r = 0; r < rows; r++) ...] *)
Definition drawCells (techniques : jsarray) (cols : nat) : list Ctx.cmd :=
  flat_map (fun c => flat_map (fun r => drawCell techniques cols c r) (seq 0 rows))
    (seq 0 cols).

Definition drawGrid (s : State) : list Ctx.cmd :=
  let cols := classCount s in
  [ Ctx.save;
    Ctx.globalAlpha 0.9;
    Ctx.fillStyle (Ctx.color "#1f2937") ]
  ++ roundRect (gx - 8) (gy - 8) (gridW + 16) (gridH + 16) 12 true false
  ++ [ Ctx.globalAlpha 1;
       Ctx.font "16px system-ui, -apple-system, Segoe UI, Roboto";
       Ctx.textAlign "left";
       Ctx.textBaseline "middle" ]
  ++ drawCells (techniques s) cols
  ++ [ Ctx.restore ].

(** The redraw effect, for a canvas whose 2D context is available. *)
Definition redraw (s : State) (illustImg : option Image.t) : list Ctx.cmd :=
  drawFrame (frame s)
  ++ drawIllustration illustImg
  ++ drawHeader s
  ++ drawLabels s
  ++ drawGrid s.

Local Close Scope float_scope.

(** ** Further handlers and views *)

(** [handleDownload]: the file name given to the link,
    [`${title || "card"}.png`]. *)
Definition downloadName (s : State) : jsstring :=
  str_or (title s) (js "card") ++ js ".png".

(** The [value] of the technique input of class [c], row [r] in the form:
    [techniques[idx] || ""] with [idx = c * 6 + r]. *)
Definition techniqueInputValue (s : State) (c r : nat) : jsstring :=
  undef_or (array_get (techniques s) (c * 6 + r)) [].

(** ** Vocabulary of the statements *)

(** What every handler preserves. *)
Definition state_inv (s : State) : Prop :=
  length (techniques s) = 24 /\ 1 <= classCount s <= 4.

(** The calls that build and paint a path. *)
Definition path_cmd (c : Ctx.cmd) : bool :=
  match c with
  | Ctx.beginPath | Ctx.moveTo _ _ | Ctx.arcTo _ _ _ _ _ | Ctx.closePath
  | Ctx.fill | Ctx.stroke => true
  | _ => false
  end.

(** [f] takes different values at different arguments below [n]. *)
Definition nat_inj_on (n : nat) (f : nat -> float) : bool :=
  forallb (fun a =>
    forallb (fun b => implb (PrimFloat.Leibniz.eqb (f a) (f b)) (a =? b)%nat)
      (seq 0 n))
    (seq 0 n).

(** The depth of the context's state stack after the calls [l], starting
    at depth [d]; [None] when a [restore] finds the stack empty. *)
Fixpoint ctx_depth (d : nat) (l : list Ctx.cmd) : option nat :=
  match l with
  | [] => Some d
  | Ctx.save :: l => ctx_depth (S d) l
  | Ctx.restore :: l =>
      match d with
      | O => None
      | S d' => ctx_depth d' l
      end
  | _ :: l => ctx_depth d l
  end.

(** [save] and [restore]. *)
Definition stack_cmd (c : Ctx.cmd) : bool :=
  match c with
  | Ctx.save | Ctx.restore => true
  | _ => false
  end.

(** The events that edit the card's content, as opposed to its layout
    (frame, class count) and the placeholder made at mount. *)
Definition content_event (e : Event) : bool :=
  match e with
  | ClickFrame _ | ChangeClassCount _ | CheckerMade _ => false
  | _ => true
  end.

(** The cells of a grid of [cols] columns lie edge to edge and span the
    panel: each cell ends where the next one starts, the first starts at
    [(gx, gy)] and the last ends at [(gx + gridW, gy + gridH)]. *)
Definition tiles_ok (cols : nat) : bool :=
  let x k := (gx + num (N.of_nat k) * cellW cols)%float in
  let y k := (gy + num (N.of_nat k) * cellH)%float in
  forallb (fun c => PrimFloat.Leibniz.eqb (x c + cellW cols) (x (S c))) (seq 0 cols)
  && forallb (fun r => PrimFloat.Leibniz.eqb (y r + cellH) (y (S r))) (seq 0 6)
  && PrimFloat.Leibniz.eqb (x 0%nat) gx
  && PrimFloat.Leibniz.eqb (x cols) (gx + gridW)
  && PrimFloat.Leibniz.eqb (y 0%nat) gy
  && PrimFloat.Leibniz.eqb (y 6%nat) (gy + gridH).

(** * Properties *)

(** ** Doubles through their bit-level specification

    [Prim2SF] maps a double to its IEEE-754 description, on which the
    operations are specified. *)
Lemma float_of_spec (x : float) (v : spec_float) :
  Prim2SF x = v -> x = SF2Prim v.
Proof. intros <-. symmetry. apply SF2Prim_Prim2SF. Qed.

Lemma is_nan_spec (x : float) : is_nan x = true <-> Prim2SF x = S754_nan.
Proof.
  unfold is_nan. rewrite FloatAxioms.eqb_spec. unfold SFeqb.
  destruct (Prim2SF x) as [s|s| |s m e]; simpl.
  - split; [discriminate | discriminate].
  - destruct s; split; discriminate.
  - split; reflexivity.
  - rewrite Z.compare_refl, Pos.compare_cont_refl.
    destruct s; split; discriminate.
Qed.

Lemma SFcompare_antisym (a b : spec_float) (c : comparison) :
  SFcompare a b = Some c -> SFcompare b a = Some (CompOpp c).
Proof.
  destruct a as [s1|s1| |s1 m1 e1], b as [s2|s2| |s2 m2 e2]; simpl;
    try discriminate; intros [= <-]; f_equal;
    try (destruct s1; reflexivity);
    try (destruct s2; reflexivity);
    try (destruct s1, s2; reflexivity).
  rewrite (Z.compare_antisym e1 e2).
  change (PosDef.Pos.compare_cont Eq m2 m1) with (Pos.compare m2 m1).
  change (PosDef.Pos.compare_cont Eq m1 m2) with (Pos.compare m1 m2).
  rewrite (Pos.compare_antisym m1 m2).
  destruct s1, s2; try reflexivity;
    destruct (e1 ?= e2)%Z; simpl; try reflexivity.
Qed.

Lemma SFcompare_some (a b : spec_float) :
  a <> S754_nan -> b <> S754_nan -> exists c, SFcompare a b = Some c.
Proof.
  destruct a, b; simpl; intros Ha Hb; try congruence; eauto.
Qed.

Lemma float_ltb_asym (a b : float) : (a <? b)%float = true -> (b <? a)%float = false.
Proof.
  rewrite !ltb_spec. unfold SFltb.
  destruct (SFcompare (Prim2SF a) (Prim2SF b)) as [c|] eqn:E; [|discriminate].
  rewrite (SFcompare_antisym _ _ _ E).
  destruct c; simpl; congruence.
Qed.

Lemma float_eqb_of_not_ltb (a b : float) :
  is_nan a = false -> is_nan b = false ->
  (a <? b)%float = false -> (b <? a)%float = false -> (a =? b)%float = true.
Proof.
  intros Ha Hb. rewrite !ltb_spec, FloatAxioms.eqb_spec. unfold SFltb, SFeqb.
  destruct (SFcompare_some (Prim2SF a) (Prim2SF b)) as [c E].
  - intros Hn. apply is_nan_spec in Hn. congruence.
  - intros Hn. apply is_nan_spec in Hn. congruence.
  - rewrite (SFcompare_antisym _ _ _ E), E.
    destruct c; simpl; congruence.
Qed.

Lemma float_eqb_refl (a : float) : is_nan a = false -> (a =? a)%float = true.
Proof. unfold is_nan. now destruct (a =? a)%float. Qed.

(** Rounding a non-negative mantissa never produces NaN. *)
Lemma shr_1_nonneg (mrs : shr_record) :
  (0 <= shr_m mrs)%Z -> (0 <= shr_m (shr_1 mrs))%Z.
Proof.
  destruct mrs as [m r s]; simpl.
  destruct m as [|[p|p|]|p]; simpl; lia.
Qed.

Lemma iter_pos_shr_1_nonneg (p : positive) (mrs : shr_record) :
  (0 <= shr_m mrs)%Z -> (0 <= shr_m (SpecFloat.iter_pos shr_1 p mrs))%Z.
Proof.
  revert mrs. induction p as [p IH|p IH|]; simpl; intros mrs Hm.
  - apply IH, IH, shr_1_nonneg, Hm.
  - apply IH, IH, Hm.
  - apply shr_1_nonneg, Hm.
Qed.

Lemma shr_fexp_nonneg (m e : Z) (l : location) :
  (0 <= m)%Z -> (0 <= shr_m (fst (shr_fexp prec emax m e l)))%Z.
Proof.
  intros Hm. unfold shr_fexp, shr.
  assert (H0 : (0 <= shr_m (shr_record_of_loc m l))%Z)
    by (destruct l as [|[]]; exact Hm).
  destruct (_ - e)%Z; simpl; auto using iter_pos_shr_1_nonneg.
Qed.

Lemma round_nearest_even_nonneg (m : Z) (l : location) :
  (0 <= m)%Z -> (0 <= round_nearest_even m l)%Z.
Proof.
  intros Hm. unfold round_nearest_even.
  destruct l as [|[]]; try destruct (Z.even m); lia.
Qed.

Lemma binary_round_aux_not_nan (sx : bool) (mx ex : Z) (lx : location) :
  (0 <= mx)%Z -> binary_round_aux prec emax sx mx ex lx <> S754_nan.
Proof.
  intros Hm. unfold binary_round_aux.
  pose proof (shr_fexp_nonneg mx ex lx Hm) as H1.
  destruct (shr_fexp prec emax mx ex lx) as [mrs' e']. simpl in H1.
  pose proof (shr_fexp_nonneg _ e' loc_Exact
                (round_nearest_even_nonneg _ (loc_of_shr_record mrs') H1)) as H2.
  destruct (shr_fexp prec emax _ e' loc_Exact) as [mrs'' e'']. simpl in H2.
  destruct (shr_m mrs''); [discriminate | | lia].
  destruct (_ <=? _)%Z; discriminate.
Qed.

Lemma SFdiv_core_nonneg (m1 m2 : positive) (e1 e2 : Z) :
  (0 <= fst (fst (SFdiv_core_binary prec emax (Zpos m1) e1 (Zpos m2) e2)))%Z.
Proof.
  unfold SFdiv_core_binary.
  set (m' := match _ with Zpos _ => _ | Z0 => _ | Zneg _ => _ end).
  assert (Hm' : (0 <= m')%Z).
  { subst m'. destruct (_ - _ - _)%Z; try lia. apply Z.shiftl_nonneg. lia. }
  pose proof (Z_div_mod m' (Zpos m2) eq_refl) as Hd.
  destruct (Z.div_eucl m' (Zpos m2)) as [q r]. simpl.
  destruct Hd as [Hq Hr]. nia.
Qed.

Lemma div_not_nan (a b : float) (m : positive) (e : Z) :
  is_nan a = false -> Prim2SF b = S754_finite false m e ->
  is_nan (a / b)%float = false.
Proof.
  intros Ha Hb.
  destruct (is_nan (a / b)) eqn:E; [|reflexivity].
  apply is_nan_spec in E. rewrite div_spec, Hb in E.
  assert (Hna : Prim2SF a <> S754_nan)
    by (intros Hn; apply is_nan_spec in Hn; congruence).
  destruct (Prim2SF a) as [s|s| |s ma ea]; simpl in E; try discriminate.
  - congruence.
  - exfalso. unfold SF64div, SFdiv in E.
    pose proof (SFdiv_core_nonneg ma m ea e) as Hq.
    destruct (SFdiv_core_binary prec emax (Zpos ma) ea (Zpos m) e) as [[mz ez] lz].
    simpl in Hq. exact (binary_round_aux_not_nan _ _ _ _ Hq E).
Qed.

Lemma float_leb_of_not_ltb (a b : float) :
  is_nan a = false -> is_nan b = false ->
  (b <? a)%float = false -> (a <=? b)%float = true.
Proof.
  intros Ha Hb. rewrite ltb_spec, leb_spec. unfold SFltb, SFleb.
  destruct (SFcompare_some (Prim2SF a) (Prim2SF b)) as [c E].
  - intros Hn. apply is_nan_spec in Hn. congruence.
  - intros Hn. apply is_nan_spec in Hn. congruence.
  - rewrite (SFcompare_antisym _ _ _ E), E.
    destruct c; simpl; congruence.
Qed.

Lemma float_leb_refl (a : float) : is_nan a = false -> (a <=? a)%float = true.
Proof.
  intros Ha. apply float_leb_of_not_ltb; trivial.
  destruct (a <? a)%float eqn:E; trivial.
  now rewrite (float_ltb_asym _ _ E) in E.
Qed.

Lemma float_min_not_nan (a b : float) :
  is_nan a = false -> is_nan b = false -> is_nan (float_min a b) = false.
Proof.
  intros Ha Hb. unfold float_min. rewrite Ha, Hb. simpl.
  repeat match goal with |- context [if ?c then _ else _] => destruct c end; assumption.
Qed.

Lemma half_not_nan (a : float) :
  is_nan a = false -> is_nan (a / 2)%float = false.
Proof.
  intros Ha. eapply div_not_nan; [exact Ha|]. vm_compute. reflexivity.
Qed.

Lemma clamp_eq_min (r m2 : float) :
  is_nan r = false -> is_nan m2 = false ->
  ((if (m2 <? r)%float then m2 else r) =? float_min r m2)%float = true.
Proof.
  intros Hr Hm. unfold float_min. rewrite Hr, Hm. simpl.
  destruct (m2 <? r)%float eqn:E1.
  - rewrite (float_ltb_asym _ _ E1). now apply float_eqb_refl.
  - destruct (r <? m2)%float eqn:E2; [now apply float_eqb_refl|].
    destruct (is_zero r && get_sign r)%bool; [now apply float_eqb_refl|].
    now apply float_eqb_of_not_ltb.
Qed.

(** Division by zero gives an infinity or NaN, and NaN is absorbing. *)
Lemma div_zero_cases (d : float) :
  (d / 0 = nan \/ d / 0 = infinity \/ d / 0 = neg_infinity)%float.
Proof.
  pose proof (div_spec d 0%float) as E.
  change (Prim2SF 0%float) with (S754_zero false) in E.
  destruct (Prim2SF d) as [s|s| |s m e]; simpl in E;
    apply float_of_spec in E; rewrite E; try destruct s; auto.
Qed.

Lemma sub_nan (a : float) : (a - nan)%float = nan.
Proof.
  pose proof (sub_spec a nan) as E.
  change (Prim2SF nan) with S754_nan in E.
  destruct (Prim2SF a) as [s|s| |s m e]; simpl in E;
    apply float_of_spec in E; exact E.
Qed.


(** ** The fit calculator *)

Local Open Scope Q_scope.

Lemma scaled_le (src dst ratio : Q) :
  0 < src -> ratio <= dst / src -> src * ratio <= dst.
Proof.
  intros Hs Hr.
  apply Qle_trans with (src * (dst / src)).
  - apply Qmult_le_l; assumption.
  - rewrite Qmult_div_r; [apply Qle_refl|].
    intros E. rewrite E in Hs. now apply Qlt_irrefl in Hs.
Qed.

(** C2, as stated, fails on doubles: with the strictly positive inputs
    (1, 11, 200, 200) the ratio 200/11 is rounded up, the scaled height
    11 * ratio is 200.00000000000003 and exceeds the destination height 200,
    and the vertical offset is negative.  The same happens in the
    illustration panel (624 x 580) for an image of 100 x 135 pixels. *)
Lemma fitContain_double_overshoot :
  let f := fitContain 1%float 11%float 200%float 200%float in
  let g := fitContain (num 100) (num 135) illW illH in
  (200 <? Fit.h f)%float = true /\ (Fit.y f <? 0)%float = true
  /\ (illH <? Fit.h g)%float = true /\ (Fit.y g <? 0)%float = true.
Proof. vm_compute. repeat split; reflexivity. Qed.

(** C2 (amended): [fitContain] returns the scaled size [srcW * r] and
    [srcH * r] with [r = min(dstW / srcW, dstH / srcH)] and the offsets
    [(dstW - w) / 2] and [(dstH - h) / 2], on doubles as in exact arithmetic.
    Read in exact rational arithmetic, for strictly positive inputs the scaled
    box never exceeds the destination box on either axis and the margins of
    each axis are equal and non-negative.  On doubles,
    [fitContain(400, 200, 200, 200)] is exactly
    [{ w: 200, h: 100, x: 0, y: 50 }]. *)
Theorem fitContain_contain (srcW srcH dstW dstH : Q) :
  0 < srcW -> 0 < srcH -> 0 < dstW -> 0 < dstH ->
  let f := fitContain srcW srcH dstW dstH in
  let ratio := Qmin (dstW / srcW) (dstH / srcH) in
  Fit.w f = srcW * ratio /\ Fit.h f = srcH * ratio
  /\ Fit.x f = (dstW - Fit.w f) / 2 /\ Fit.y f = (dstH - Fit.h f) / 2
  /\ Fit.w f <= dstW /\ Fit.h f <= dstH
  /\ 0 <= Fit.x f /\ 0 <= Fit.y f
  /\ Fit.x f + Fit.w f + Fit.x f == dstW
  /\ Fit.y f + Fit.h f + Fit.y f == dstH
  /\ (forall a b c d : float,
        let g := fitContain a b c d in
        let r := float_min (c / a) (d / b) in
        Fit.w g = a * r /\ Fit.h g = b * r
        /\ Fit.x g = (c - Fit.w g) / 2 /\ Fit.y g = (d - Fit.h g) / 2)%float
  /\ fitContain 400%float 200%float 200%float 200%float
     = Fit.mk 200%float 100%float 0%float 50%float.
Proof.
  intros HsW HsH HdW HdH f ratio.
  assert (Hw : Fit.w f <= dstW)
    by (apply scaled_le; [assumption | apply Q.le_min_l]).
  assert (Hh : Fit.h f <= dstH)
    by (apply scaled_le; [assumption | apply Q.le_min_r]).
  do 4 (split; [reflexivity|]).
  change (Fit.x f) with ((dstW - Fit.w f) / 2).
  change (Fit.y f) with ((dstH - Fit.h f) / 2).
  generalize dependent (Fit.w f). generalize dependent (Fit.h f).
  intros h Hh w Hw.
  repeat split; trivial; try field;
    (unfold Qdiv; apply Qmult_le_0_compat; [lra | discriminate]).
Qed.

Lemma fitContain_contain_witness :
  let f := fitContain (400 : Q) 200 200 200 in
  Fit.w f <= 200 /\ Fit.h f <= 200
  /\ Fit.x f + Fit.w f + Fit.x f == 200 /\ Fit.y f + Fit.h f + Fit.y f == 200.
Proof.
  pose proof (fitContain_contain 400 200 200 200
                eq_refl eq_refl eq_refl eq_refl) as H.
  cbv zeta in H.
  destruct H as (_ & _ & _ & _ & Hw & Hh & _ & _ & Hx & Hy & _).
  exact (conj Hw (conj Hh (conj Hx Hy))).
Defined.

Local Close Scope Q_scope.
Local Open Scope float_scope.

(** C6, as stated, fails: [fitContain] has no guard and divides by the zero
    source size.  With a zero-sized source in the illustration panel
    (624 x 580) the ratio is [+Infinity] and every field of the result is NaN;
    with a zero destination width, a single zero source dimension gives NaN
    as well. *)
Lemma fitContain_zero_not_finite :
  let f := fitContain 0 0 624 580 in
  let g := fitContain 0 5 0 200 in
  is_finite (Fit.w f) = false /\ is_finite (Fit.h f) = false
  /\ is_finite (Fit.x f) = false /\ is_finite (Fit.y f) = false
  /\ is_nan (Fit.w f) = true
  /\ is_finite (Fit.w g) = false /\ is_finite (Fit.h g) = false.
Proof. vm_compute. repeat split; reflexivity. Qed.

(** C6 (amended): [fitContain] does not guard zero source dimensions; it
    performs the divisions, which on doubles give an infinity or NaN.  When
    both [srcW] and [srcH] are zero, the width, height and both offsets are
    NaN for every [dstW] and [dstH].  When one source dimension is zero the
    result can still be finite: [fitContain(0, 5, 200, 200)] is
    [{ w: 0, h: 200, x: 100, y: 0 }]. *)
Theorem fitContain_zero_source (dstW dstH : float) :
  (dstW / 0 = nan \/ dstW / 0 = infinity \/ dstW / 0 = neg_infinity)
  /\ fitContain 0 0 dstW dstH = Fit.mk nan nan nan nan
  /\ fitContain 0 5 200 200 = Fit.mk 0 200 100 0.
Proof.
  split; [apply div_zero_cases|]. split; [|vm_compute; reflexivity].
  unfold fitContain. simpl.
  assert (Hw : 0 * float_min (dstW / 0) (dstH / 0) = nan).
  { destruct (div_zero_cases dstW) as [-> | [-> | ->]],
             (div_zero_cases dstH) as [-> | [-> | ->]]; reflexivity. }
  change (float_of_Z 2) with 2.
  rewrite Hw, !sub_nan. reflexivity.
Qed.

(** ** The rounded rectangle *)

(** C7: [roundRect] draws its four corner arcs with the radius
    [clampRadius w h r], which for all numbers [w], [h], [r] (NaN excluded)
    is [Math.min(r, Math.min(w, h) / 2)] under [===], hence at most
    [min(w, h) / 2] and at most [r]; requesting radius 50 on a 40 x 20 box
    gives the radius 10. *)
Theorem roundRect_radius_clamp (x y w h r : float) (fill stroke : bool) :
  is_nan w = false -> is_nan h = false -> is_nan r = false ->
  let half := Math_min w h / 2 in
  let eff := clampRadius w h r in
  roundRect x y w h r fill stroke
  = [ Ctx.beginPath;
      Ctx.moveTo (x + eff) y;
      Ctx.arcTo (x + w) y (x + w) (y + h) eff;
      Ctx.arcTo (x + w) (y + h) x (y + h) eff;
      Ctx.arcTo x (y + h) x y eff;
      Ctx.arcTo x y (x + w) y eff;
      Ctx.closePath ]
    ++ (if fill then [Ctx.fill] else [])
    ++ (if stroke then [Ctx.stroke] else [])
  /\ (eff =? Math_min r half) = true
  /\ (eff <=? half) = true
  /\ (eff <=? r) = true
  /\ clampRadius 40 20 50 = 10.
Proof.
  intros Hw Hh Hr half eff.
  assert (Hhalf : is_nan half = false)
    by (apply half_not_nan, float_min_not_nan; assumption).
  split; [reflexivity|].
  assert (Eeff : eff = if half <? r then half else r) by reflexivity.
  split; [|split; [|split]].
  - rewrite Eeff. now apply clamp_eq_min.
  - rewrite Eeff. destruct (half <? r) eqn:E.
    + now apply float_leb_refl.
    + now apply float_leb_of_not_ltb.
  - rewrite Eeff. destruct (half <? r) eqn:E.
    + apply float_leb_of_not_ltb; trivial. now apply float_ltb_asym.
    + now apply float_leb_refl.
  - vm_compute. reflexivity.
Qed.

Lemma roundRect_radius_clamp_witness :
  clampRadius 40 20 50 = 10
  /\ (clampRadius 40 20 50 =? Math_min 50 (Math_min 40 20 / 2)) = true
  /\ (clampRadius 40 20 50 <=? Math_min 40 20 / 2) = true.
Proof.
  pose proof (roundRect_radius_clamp 0 0 40 20 50 true false
                eq_refl eq_refl eq_refl) as H.
  cbv zeta in H.
  destruct H as (_ & Heq & Hle & _ & Hex).
  exact (conj Hex (conj Heq Hle)).
Defined.

Local Close Scope float_scope.

(** ** Arrays and the input state *)

Lemma array_get_past_end (a : jsarray) (i : nat) :
  length a <= i -> array_get a i = None.
Proof.
  intros Hi. unfold array_get. now rewrite lookup_ge_None_2.
Qed.

Lemma array_get_set_eq (a : jsarray) (i : nat) (v : jsstring) :
  array_get (array_set a i v) i = Some v.
Proof.
  unfold array_get, array_set. destruct (decide (i < length a)) as [Hi|Hi].
  - now rewrite list_lookup_insert_eq.
  - rewrite lookup_app_r by lia.
    rewrite lookup_app_r; rewrite length_replicate; [|lia].
    now replace (i - length a - (i - length a)) with 0 by lia.
Qed.

Lemma array_get_set_ne (a : jsarray) (i j : nat) (v : jsstring) :
  j <> i -> array_get (array_set a i v) j = array_get a j.
Proof.
  intros Hne. unfold array_get, array_set.
  destruct (decide (i < length a)) as [Hi|Hi].
  - now rewrite list_lookup_insert_ne.
  - destruct (decide (j < length a)) as [Hj|Hj].
    + now rewrite lookup_app_l.
    + rewrite (lookup_ge_None_2 a j) by lia.
      rewrite lookup_app_r by lia.
      destruct (decide (j < i)) as [Hji|Hji].
      * rewrite lookup_app_l by (rewrite length_replicate; lia).
        rewrite lookup_replicate_2; [reflexivity | lia].
      * rewrite lookup_ge_None_2; [reflexivity|].
        rewrite length_app, length_replicate. simpl. lia.
Qed.

Lemma array_set_length (a : jsarray) (i : nat) (v : jsstring) :
  i < length a -> length (array_set a i v) = length a.
Proof.
  intros Hi. unfold array_set. rewrite decide_True by exact Hi.
  apply length_insert.
Qed.

Lemma handle_inv (e : Event) (s : State) :
  state_inv s -> enabled e s -> state_inv (handle e s).
Proof.
  intros [Hlen Hcc] He. unfold state_inv.
  destruct e; simpl in *; try (split; [exact Hlen | exact Hcc]).
  - split; [exact Hlen | exact He].
  - split; [|exact Hcc]. rewrite array_set_length; [exact Hlen | lia].
  - split; [reflexivity | exact Hcc].
Qed.

Lemma reachable_inv (s : State) : reachable s -> state_inv s.
Proof.
  induction 1 as [|s e _ IH He].
  - split; [reflexivity | simpl; lia].
  - now apply handle_inv.
Qed.

(** C1, as stated, fails already in the initial state: the array has 24
    entries while [classCount * 6] is 6. *)
Lemma techniques_length_not_classCount_times_6 :
  reachable initial
  /\ length (techniques initial) = 24
  /\ classCount initial * 6 = 6
  /\ length (techniques initial) <> classCount initial * 6.
Proof.
  split; [apply reachable_initial|]. repeat split. simpl. lia.
Qed.

(** C1 (amended): in every reachable input state, hence in every snapshot a
    redraw consumes, the techniques array has length 24 (= 4 * 6) and
    [classCount] is in [1, 4]; so [classCount * 6] is at most the length, and
    equals it exactly when [classCount] is 4. *)
Theorem reachable_techniques_length (s : State) :
  reachable s ->
  length (techniques s) = 24
  /\ 1 <= classCount s <= 4
  /\ classCount s * 6 <= length (techniques s)
  /\ (length (techniques s) = classCount s * 6 <-> classCount s = 4).
Proof.
  intros Hs. destruct (reachable_inv s Hs) as [Hlen Hcc].
  rewrite Hlen. repeat split; lia.
Qed.

Lemma reachable_techniques_length_witness :
  let s := handle (ChangeClassCount 3) initial in
  reachable s /\ length (techniques s) = 24 /\ classCount s * 6 = 18.
Proof.
  intros s.
  assert (Hs : reachable s).
  { apply reachable_handle; [apply reachable_initial | simpl; lia]. }
  split; [exact Hs|].
  split; [exact (proj1 (reachable_techniques_length s Hs)) | reflexivity].
Defined.

(** C3, as stated, fails: the reset handler never calls [setClassCount], so
    a card with three classes still has three classes after a reset. *)
Lemma reset_keeps_classCount :
  let s := handle (ChangeClassCount 3) initial in
  reachable s
  /\ classCount (handle ClickReset s) = 3
  /\ classCount (handle ClickReset s) <> 1.
Proof.
  split; [|split; [reflexivity | discriminate]].
  apply reachable_handle; [apply reachable_initial | simpl; lia].
Qed.

(** C3 (amended): the reset operation sets the free-text fields (title,
    username, monsterName, exName, battleMeme) to the empty string, the race
    to the first preset with an empty custom override, the illustration back
    to the default placeholder selection with no upload, and the techniques
    to an array of 24 empty strings; it leaves [classCount], the frame style
    and the placeholder image as they were. *)
Theorem reset_defaults (s : State) :
  let s' := reset s in
  title s' = [] /\ username s' = [] /\ monsterName s' = []
  /\ exName s' = [] /\ battleMeme s' = []
  /\ Some (racePreset s') = DEFAULT_RACES !! 0
  /\ racePreset s' = [0x9b54; 0x65cf]%N
  /\ raceCustom s' = []
  /\ useDefaultIllust s' = true /\ uploadURL s' = None
  /\ illustSrc s' = checker s
  /\ techniques s' = replicate 24 (Some [])
  /\ length (techniques s') = 24
  /\ (forall i, i < 24 -> array_get (techniques s') i = Some [])
  /\ classCount s' = classCount s
  /\ frame s' = frame s
  /\ checker s' = checker s.
Proof.
  intros s'. repeat split.
  intros i Hi.
  change (techniques s') with (replicate 24 (Some ([] : jsstring))).
  unfold array_get. now rewrite lookup_replicate_2.
Qed.

Lemma flat_map_agree {T U : Type} (f g : T -> list U) (l : list T) :
  (forall a, In a l -> f a = g a) -> flat_map f l = flat_map g l.
Proof.
  induction l as [|a l IH]; simpl; intros Hfg; [reflexivity|].
  rewrite (Hfg a) by now left.
  rewrite IH; [reflexivity|]. intros b Hb. apply Hfg. now right.
Qed.

(** What the grid shows depends only on the first [cols * 6] entries. *)
Lemma drawCells_ext (t t' : jsarray) (cols : nat) :
  (forall i, i < cols * 6 -> array_get t i = array_get t' i) ->
  drawCells t cols = drawCells t' cols.
Proof.
  intros Hagree. unfold drawCells.
  apply flat_map_agree. intros c Hc. apply in_seq in Hc.
  apply flat_map_agree. intros r Hr. apply in_seq in Hr. unfold rows in *.
  unfold drawCell. rewrite Hagree; [reflexivity | unfold rows; nia].
Qed.

(** C10: changing [classCount] leaves the techniques array unchanged, also
    across a later change, and the array keeps its 24 entries; the entries
    from [classCount * 6] on are not read by the grid; editing the slot of
    column [c] and row [r] stores the new value at index [c * 6 + r] and
    leaves every other index [j] as it was. *)
Theorem techniques_frame (s : State) (n m c r j : nat) (v : jsstring) :
  reachable s -> c < classCount s -> r < 6 -> j <> c * 6 + r ->
  techniques (handle (ChangeClassCount n) s) = techniques s
  /\ techniques (handle (ChangeClassCount m) (handle (ChangeClassCount n) s))
     = techniques s
  /\ length (techniques s) = 24
  /\ (forall t' : jsarray,
        (forall i, i < classCount s * 6 -> array_get t' i = array_get (techniques s) i) ->
        drawCells t' (classCount s) = drawCells (techniques s) (classCount s))
  /\ (let s' := handle (ChangeTechnique c r v) s in
      array_get (techniques s') (c * 6 + r) = Some v
      /\ array_get (techniques s') j = array_get (techniques s) j
      /\ length (techniques s') = 24
      /\ classCount s' = classCount s)
  /\ (forall index k, k <> index ->
        array_get (techniques (handleTechniqueChange index v s)) k
        = array_get (techniques s) k).
Proof.
  intros Hs Hc Hr Hj. destruct (reachable_inv s Hs) as [Hlen Hcc].
  split; [reflexivity|]. split; [reflexivity|]. split; [exact Hlen|].
  split; [intros t' Ht'; now apply drawCells_ext|].
  split.
  - simpl. split; [apply array_get_set_eq|].
    split; [now apply array_get_set_ne|].
    split; [|reflexivity].
    rewrite array_set_length; [exact Hlen | lia].
  - intros index k Hk. simpl. now apply array_get_set_ne.
Qed.

Lemma techniques_frame_witness :
  let s := handle (ChangeTechnique 1 1 [65%N])
             (handle (ChangeClassCount 2) initial) in
  reachable s
  /\ techniques (handle (ChangeClassCount 1) s) = techniques s
  /\ array_get (techniques (handle (ChangeClassCount 1) s)) 7 = Some [65%N]
  /\ array_get (techniques (handle (ChangeTechnique 0 3 [66%N]) s)) 7
     = array_get (techniques s) 7.
Proof.
  intros s.
  assert (Hs : reachable s).
  { apply reachable_handle; [|simpl; lia].
    apply reachable_handle; [apply reachable_initial | simpl; lia]. }
  pose proof (techniques_frame s 1 2 0 3 7 [66%N] Hs
                ltac:(simpl; lia) ltac:(lia) ltac:(lia)) as H.
  destruct H as (Hcc & _ & _ & _ & (_ & Hother & _) & _).
  split; [exact Hs|]. split; [exact Hcc|].
  split; [reflexivity | exact Hother].
Defined.

(** ** Strings *)

Lemma slice_prefix {T : Type} (s : list T) (n : nat) :
  slice s 0 (Z.of_nat n) = take n s.
Proof.
  unfold slice.
  replace (Z.of_nat n <? 0)%Z with false by (symmetry; apply Z.ltb_ge; lia).
  simpl (if (0 <? 0)%Z then _ else _).
  rewrite (Z.min_l 0) by lia. simpl drop.
  rewrite Z.sub_0_r.
  destruct (Z.min_spec (Z.of_nat n) (Z.of_nat (length s))) as [[Hlt ->]|[Hle ->]].
  - now rewrite Nat2Z.id.
  - rewrite Nat2Z.id. rewrite !take_ge; trivial; lia.
Qed.

Lemma str_or_empty (s : jsstring) : str_or s [] = s.
Proof. now destruct s. Qed.

(** ** The technique grid *)

Local Open Scope float_scope.

Lemma nat_inj_on_spec (n : nat) (f : nat -> float) :
  nat_inj_on n f = true ->
  forall a b, (a < n)%nat -> (b < n)%nat -> f a = f b -> a = b.
Proof.
  unfold nat_inj_on. rewrite forallb_forall. intros Hall a b Ha Hb E.
  specialize (Hall a). rewrite forallb_forall in Hall.
  assert (Ia : In a (seq 0 n)) by (apply in_seq; lia).
  assert (Ib : In b (seq 0 n)) by (apply in_seq; lia).
  specialize (Hall Ia b Ib).
  apply FloatAxioms.Leibniz.eqb_spec in E. rewrite E in Hall. simpl in Hall.
  now apply Nat.eqb_eq.
Qed.

(** Different columns have different text positions, and so have rows. *)
Lemma column_x_inj (cols c c' : nat) :
  (1 <= cols <= 4)%nat -> (c < cols)%nat -> (c' < cols)%nat ->
  gx + num (N.of_nat c) * cellW cols + 8
  = gx + num (N.of_nat c') * cellW cols + 8 ->
  c = c'.
Proof.
  intros Hcols.
  apply (nat_inj_on_spec cols (fun c => gx + num (N.of_nat c) * cellW cols + 8)).
  assert (Hc : cols = 1%nat \/ cols = 2%nat \/ cols = 3%nat \/ cols = 4%nat) by lia.
  destruct Hc as [-> | [-> | [-> | ->]]]; vm_compute; reflexivity.
Qed.

Lemma row_y_inj (r r' : nat) :
  (r < 6)%nat -> (r' < 6)%nat ->
  gy + num (N.of_nat r) * cellH + cellH / 2
  = gy + num (N.of_nat r') * cellH + cellH / 2 ->
  r = r'.
Proof.
  apply (nat_inj_on_spec 6 (fun r => gy + num (N.of_nat r) * cellH + cellH / 2)).
  vm_compute. reflexivity.
Qed.

Lemma in_drawCells (cmd : Ctx.cmd) (t : jsarray) (cols : nat) :
  In cmd (drawCells t cols) <->
  exists c r, (c < cols)%nat /\ (r < 6)%nat /\ In cmd (drawCell t cols c r).
Proof.
  unfold drawCells. rewrite in_flat_map. split.
  - intros (c & Hc & Hin). apply in_flat_map in Hin as (r & Hr & Hin).
    apply in_seq in Hc, Hr. exists c, r. unfold rows in Hr.
    repeat split; trivial; lia.
  - intros (c & r & Hc & Hr & Hin). exists c. split; [apply in_seq; lia|].
    apply in_flat_map. exists r.
    split; [apply in_seq; unfold rows; lia | exact Hin].
Qed.

Lemma fillText_in_drawCell (t : jsstring) (x y : float)
    (tech : jsarray) (cols c r : nat) :
  In (Ctx.fillText t x y) (drawCell tech cols c r) <->
  t = slice (undef_or (array_get tech (c * 6 + r)) []) 0 18
  /\ x = gx + num (N.of_nat c) * cellW cols + 8
  /\ y = gy + num (N.of_nat r) * cellH + cellH / 2.
Proof.
  unfold drawCell, rows. simpl. split.
  - intros [H|[H|[H|[H|[H|[]]]]]]; try discriminate H.
    injection H as <- <- <-. auto.
  - intros (-> & -> & ->). auto 6.
Qed.

Lemma strokeRect_in_drawCell (tech : jsarray) (cols c r : nat) :
  In (Ctx.strokeRect (gx + num (N.of_nat c) * cellW cols)
        (gy + num (N.of_nat r) * cellH) (cellW cols) cellH)
     (drawCell tech cols c r).
Proof. unfold drawCell. simpl. auto. Qed.

(** The text drawn at the position of column [c] and row [r]. *)
Lemma grid_text_at (tech : jsarray) (cols c r : nat) (t : jsstring) :
  (1 <= cols <= 4)%nat -> (c < cols)%nat -> (r < 6)%nat ->
  In (Ctx.fillText t (gx + num (N.of_nat c) * cellW cols + 8)
        (gy + num (N.of_nat r) * cellH + cellH / 2))
     (drawCells tech cols)
  <-> t = slice (undef_or (array_get tech (c * 6 + r)) []) 0 18.
Proof.
  intros Hcols Hc Hr. rewrite in_drawCells. split.
  - intros (c' & r' & Hc' & Hr' & Hin).
    apply fillText_in_drawCell in Hin as (-> & Hx & Hy).
    apply column_x_inj in Hx; trivial. apply row_y_inj in Hy; trivial.
    now subst.
  - intros ->. exists c, r. repeat split; trivial.
    apply fillText_in_drawCell. auto.
Qed.

Lemma in_roundRect (c : Ctx.cmd) (x y w h r : float) (f s : bool) :
  In c (roundRect x y w h r f s) -> path_cmd c = true.
Proof.
  unfold roundRect. rewrite !in_app_iff. intros [H|[H|H]].
  - simpl in H. repeat (destruct H as [<-|H]; [reflexivity|]). destruct H.
  - destruct f; simpl in H; [destruct H as [<-|[]]; reflexivity | destruct H].
  - destruct s; simpl in H; [destruct H as [<-|[]]; reflexivity | destruct H].
Qed.

Lemma in_drawGrid (s : State) (c : Ctx.cmd) :
  In c (drawCells (techniques s) (classCount s)) -> In c (drawGrid s).
Proof. unfold drawGrid. rewrite !in_app_iff. auto. Qed.

Lemma fillText_in_drawGrid (s : State) (t : jsstring) (x y : float) :
  In (Ctx.fillText t x y) (drawGrid s) <->
  In (Ctx.fillText t x y) (drawCells (techniques s) (classCount s)).
Proof.
  split; [|apply in_drawGrid].
  unfold drawGrid. rewrite !in_app_iff.
  intros [H|[H|[H|[H|H]]]]; trivial.
  - simpl in H. repeat (destruct H as [H|H]; [discriminate H|]). destruct H.
  - apply in_roundRect in H. discriminate H.
  - simpl in H. repeat (destruct H as [H|H]; [discriminate H|]). destruct H.
  - simpl in H. repeat (destruct H as [H|H]; [discriminate H|]). destruct H.
Qed.

Lemma flat_map_length_const {T U : Type} (f : T -> list U) (l : list T) (k : nat) :
  (forall a, length (f a) = k) -> length (flat_map f l) = (length l * k)%nat.
Proof.
  intros Hf. induction l as [|a l IH]; simpl; [reflexivity|].
  rewrite length_app, Hf, IH. reflexivity.
Qed.

Lemma drawCells_length (tech : jsarray) (cols : nat) :
  length (drawCells tech cols) = (cols * 6 * 5)%nat.
Proof.
  unfold drawCells.
  rewrite (flat_map_length_const _ _ (6 * 5)), length_seq; [lia|].
  intros c. rewrite (flat_map_length_const _ _ 5); [reflexivity|].
  intros r. reflexivity.
Qed.

(** C4: for [classCount] in [1, 4], column [c] below [classCount] and row
    [r] below 6, the redraw strokes the cell at the place of column [c] and
    row [r], and the text it draws there is (the displayed prefix of)
    [techniques[c * 6 + r]], the column-major index, and no other. *)
Theorem grid_column_major (s : State) (c r : nat) :
  (1 <= classCount s <= 4)%nat -> (c < classCount s)%nat -> (r < 6)%nat ->
  let cols := classCount s in
  let x := gx + num (N.of_nat c) * cellW cols in
  let y2 := gy + num (N.of_nat r) * cellH in
  In (Ctx.strokeRect x y2 (cellW cols) cellH) (drawGrid s)
  /\ forall t,
       In (Ctx.fillText t (x + 8) (y2 + cellH / 2)) (drawGrid s)
       <-> t = slice (undef_or (array_get (techniques s) (c * 6 + r)) []) 0 18.
Proof.
  intros Hcols Hc Hr cols x y2. split.
  - apply in_drawGrid, in_drawCells. exists c, r.
    repeat split; trivial. apply strokeRect_in_drawCell.
  - intros t. rewrite fillText_in_drawGrid. now apply grid_text_at.
Qed.

(** With two classes, [techniques[7]] is drawn in the second column, second
    row (text position 368, 892); the row-major place of index 7 (column 1,
    row 3: position 368, 972) shows [techniques[9]]. *)
Lemma grid_column_major_witness :
  let s := handle (ChangeTechnique 1 3 [66%N])
             (handle (ChangeTechnique 1 1 [65%N])
                (handle (ChangeClassCount 2) initial)) in
  classCount s = 2%nat
  /\ array_get (techniques s) 7 = Some [65%N]
  /\ (forall t, In (Ctx.fillText t 368 892) (drawGrid s) <-> t = [65%N])
  /\ (forall t, In (Ctx.fillText t 368 972) (drawGrid s) <-> t = [66%N]).
Proof.
  intros s.
  pose proof (grid_column_major s 1 1
                ltac:(simpl; lia) ltac:(simpl; lia) ltac:(lia)) as H11.
  pose proof (grid_column_major s 1 3
                ltac:(simpl; lia) ltac:(simpl; lia) ltac:(lia)) as H13.
  split; [reflexivity|]. split; [reflexivity|].
  split; [exact (proj2 H11) | exact (proj2 H13)].
Defined.

(** C8: when the entry of a cell is the string [str], the cell's only text
    is the prefix of [str] of length [min(18, length str)], nothing is
    appended to it, and a string of 30 code units is drawn as its first 18. *)
Theorem technique_text_truncated (tech : jsarray) (cols c r : nat) (str : jsstring) :
  array_get tech (c * 6 + r) = Some str ->
  let x := gx + num (N.of_nat c) * cellW cols in
  let y2 := gy + num (N.of_nat r) * cellH in
  drawCell tech cols c r
  = [ Ctx.strokeStyle (Ctx.color "#475569");
      Ctx.lineWidth 1;
      Ctx.strokeRect x y2 (cellW cols) cellH;
      Ctx.fillStyle (Ctx.color "#e5e7eb");
      Ctx.fillText (take 18 str) (x + 8) (y2 + cellH / 2) ]
  /\ take 18 str ++ drop 18 str = str
  /\ length (take 18 str) = Nat.min 18 (length str)
  /\ ((length str <= 18)%nat -> take 18 str = str)
  /\ (length str = 30%nat ->
      length (take 18 str) = 18%nat /\ length (drop 18 str) = 12%nat).
Proof.
  intros Hget x y2. split.
  - unfold drawCell, rows. rewrite Hget. simpl undef_or.
    rewrite str_or_empty.
    change 18%Z with (Z.of_nat 18). now rewrite slice_prefix.
  - split; [apply take_drop|]. split; [apply length_take|].
    split; [intros Hle; now apply take_ge|].
    intros H30. rewrite length_take, length_drop, H30. split; reflexivity.
Qed.

Lemma technique_text_truncated_witness :
  let str := replicate 30 65%N in
  let tech := [Some str] in
  array_get tech 0 = Some str
  /\ In (Ctx.fillText (replicate 18 65%N) 56 852) (drawCell tech 1 0 0)
  /\ length (take 18 str) = 18%nat.
Proof.
  intros str tech.
  pose proof (technique_text_truncated tech 1 0 0 str eq_refl) as H.
  cbv zeta in H. destruct H as (Hcell & _ & _ & _ & H30).
  split; [reflexivity|]. split.
  - rewrite Hcell. do 4 right. left. reflexivity.
  - exact (proj1 (H30 eq_refl)).
Defined.

(** C9: the grid is drawn for every techniques array, whatever its length:
    all [cols * 6] cells are drawn (five calls each), an index past the end
    reads as undefined, and a cell whose entry is undefined (missing or a
    hole) draws the empty string and not the text "undefined". *)
Theorem grid_missing_entry_empty (tech : jsarray) (cols c r : nat) :
  (1 <= cols <= 4)%nat -> (c < cols)%nat -> (r < 6)%nat ->
  array_get tech (c * 6 + r) = None ->
  let x := gx + num (N.of_nat c) * cellW cols in
  let y2 := gy + num (N.of_nat r) * cellH in
  (forall t, In (Ctx.fillText t (x + 8) (y2 + cellH / 2)) (drawCells tech cols)
             <-> t = [])
  /\ ~ In (Ctx.fillText (js "undefined") (x + 8) (y2 + cellH / 2))
          (drawCells tech cols)
  /\ length (drawCells tech cols) = (cols * 6 * 5)%nat
  /\ (forall i, (length tech <= i)%nat -> array_get tech i = None).
Proof.
  intros Hcols Hc Hr Hget x y2.
  assert (Htext : forall t,
    In (Ctx.fillText t (x + 8) (y2 + cellH / 2)) (drawCells tech cols) <-> t = []).
  { intros t. subst x y2. rewrite grid_text_at by assumption.
    now rewrite Hget. }
  split; [exact Htext|]. split; [|split].
  - intros Hin. apply Htext in Hin. discriminate Hin.
  - apply drawCells_length.
  - apply array_get_past_end.
Qed.

(** An array of two entries drawn with two columns: cell (0, 1) holds a
    hole, cell (1, 1) is index 7, past the end. *)
Lemma grid_missing_entry_empty_witness :
  let tech := [Some [65%N]; None] in
  array_get tech 7 = None
  /\ (forall t, In (Ctx.fillText t 368 892) (drawCells tech 2) <-> t = [])
  /\ (forall t, In (Ctx.fillText t 56 892) (drawCells tech 2) <-> t = [])
  /\ length (drawCells tech 2) = 60%nat.
Proof.
  intros tech.
  pose proof (grid_missing_entry_empty tech 2 1 1
                ltac:(lia) ltac:(lia) ltac:(lia) eq_refl) as H7.
  pose proof (grid_missing_entry_empty tech 2 0 1
                ltac:(lia) ltac:(lia) ltac:(lia) eq_refl) as H1.
  cbv zeta in H7, H1.
  split; [reflexivity|]. split; [exact (proj1 H7)|].
  split; [exact (proj1 H1) | exact (proj1 (proj2 (proj2 H7)))].
Defined.

Local Close Scope float_scope.

(** ** The header strip and the race tag *)

Local Open Scope float_scope.

Lemma float_neq_compute (a b : float) :
  PrimFloat.Leibniz.eqb a b = false -> a <> b.
Proof.
  intros Hneq Heq. apply FloatAxioms.Leibniz.eqb_spec in Heq. congruence.
Qed.

Lemma raceText_eq (s : State) :
  raceText s
  = take 6 (if truthy (raceCustom s) then raceCustom s else racePreset s).
Proof.
  unfold raceText. change 6%Z with (Z.of_nat 6). rewrite slice_prefix.
  rewrite str_or_empty. reflexivity.
Qed.

Lemma raceText_empty (s : State) :
  raceText s = [] <-> raceCustom s = [] /\ racePreset s = [].
Proof.
  rewrite raceText_eq. destruct (raceCustom s) as [|a l]; simpl.
  - destruct (racePreset s); simpl; split; try tauto; try discriminate.
    intros [_ H]. discriminate H.
  - split; [discriminate | intros [H _]; discriminate H].
Qed.

(** C5: the race text is the custom race if that is non-empty and the
    preset otherwise, cut to its first 6 code units.  The username is drawn
    by the call that directly follows [textAlign = "right"], at
    [headerX + headerW - 16 - reservedRight]: that x is its right end.  When
    the race text is non-empty the red badge is drawn (rounded rectangle
    from x = 616, 64 wide, with the race text centred in it), the reserved
    width is 112 and the username ends at x = 560, left of the badge.  When
    it is empty (both race fields empty) no badge and no badge text are
    drawn, the reserved width is 0 and the username ends at x = 672.  In
    both cases the calls of the header are exactly the listed ones. *)
Theorem race_tag_layout (s : State) :
  let resolved := if truthy (raceCustom s) then raceCustom s else racePreset s in
  let usernameX := headerX + headerW - 16 - reservedRight s in
  let panel :=
    [ Ctx.save;
      Ctx.fillStyle (Ctx.linear (Ctx.createLinearGradient 32 64 32 196
        [(0, "#111827"%string); (1, "#0b1220"%string)])) ]
    ++ roundRect 32 64 656 132 16 true false in
  let texts (x : float) :=
    [ Ctx.fillStyle (Ctx.color "#e5e7eb");
      Ctx.textBaseline "middle";
      Ctx.font "bold 22px system-ui, -apple-system, Segoe UI, Roboto";
      Ctx.textAlign "left";
      Ctx.fillText (title s) 48 98;
      Ctx.textAlign "right";
      Ctx.fillText (username s) x 98;
      Ctx.textAlign "center";
      Ctx.font "bold 40px system-ui, -apple-system, Segoe UI, Roboto";
      Ctx.fillText (monsterName s) 360 152 ] in
  raceText s = take 6 resolved
  /\ (length (raceText s) <= 6)%nat
  /\ In (Ctx.fillText (str_or (username s) []) usernameX (headerY + 34))
        (drawHeader s)
  /\ (exists pre post,
        drawHeader s
        = pre ++ [ Ctx.textAlign "right";
                   Ctx.fillText (str_or (username s) []) usernameX (headerY + 34) ]
          ++ post)
  /\ (In (Ctx.fillStyle (Ctx.color "#ef4444")) (drawHeader s)
      <-> raceText s <> [])
  /\ match raceText s with
     | _ :: _ =>
         reservedRight s = 112 /\ usernameX = 560
         /\ CANVAS_W - tagW s - tagMarginRight = 616
         /\ (usernameX <=? CANVAS_W - tagW s - tagMarginRight) = true
         /\ (exists pre post,
               drawHeader s
               = pre ++ [Ctx.fillStyle (Ctx.color "#ef4444")]
                 ++ roundRect 616 72 64 116 8 true false ++ post)
         /\ In (Ctx.fillText (raceText s) 648 130) (drawHeader s)
         /\ drawHeader s
            = panel ++ texts 560
              ++ [ Ctx.fillStyle (Ctx.color "#ef4444") ]
              ++ roundRect 616 72 64 116 8 true false
              ++ [ Ctx.fillStyle (Ctx.color "#fff");
                   Ctx.font "bold 24px system-ui, -apple-system, Segoe UI, Roboto";
                   Ctx.textAlign "center";
                   Ctx.textBaseline "middle";
                   Ctx.fillText (raceText s) 648 130;
                   Ctx.restore ]
     | [] =>
         raceCustom s = [] /\ racePreset s = []
         /\ reservedRight s = 0 /\ usernameX = 672
         /\ (forall t, ~ In (Ctx.fillText t 648 130) (drawHeader s))
         /\ drawHeader s = panel ++ texts 672 ++ [ Ctx.restore ]
     end
  /\ raceText initial = [0x9b54; 0x65cf]%N
  /\ raceText (setRacePreset [] initial) = [].
Proof.
  intros resolved usernameX panel texts.
  split; [apply raceText_eq|].
  split; [rewrite raceText_eq, length_take; lia|].
  split.
  { unfold drawHeader. rewrite !in_app_iff. right. right. left.
    simpl. do 6 right. left. reflexivity. }
  split.
  { unfold drawHeader.
    match goal with
    | |- exists pre post,
           ?a ++ ?b ++ (?c1 :: ?c2 :: ?c3 :: ?c4 :: ?c5 :: ?c6 :: ?c7 :: ?c) ++ ?d ++ ?e = _ =>
        exists (a ++ b ++ [c1; c2; c3; c4; c5]), (c ++ d ++ e)
    end.
    rewrite <- !app_assoc. reflexivity. }
  assert (Hbase : forall c, path_cmd c = false ->
            In c (roundRect headerX headerY headerW headerH 16 true false) -> False).
  { intros c Hc Hin. apply in_roundRect in Hin. congruence. }
  pose proof (raceText_empty s) as Hempty.
  assert (Hcalls : drawHeader s
            = panel ++ texts (headerX + headerW - 16 - reservedRight s)
              ++ (if truthy (raceText s) then
                    [ Ctx.fillStyle (Ctx.color "#ef4444") ]
                    ++ roundRect (CANVAS_W - tagW s - tagMarginRight)
                         (headerY + 8) (tagW s) (tagH s) 8 true false
                    ++ [ Ctx.fillStyle (Ctx.color "#fff");
                         Ctx.font "bold 24px system-ui, -apple-system, Segoe UI, Roboto";
                         Ctx.textAlign "center";
                         Ctx.textBaseline "middle";
                         Ctx.fillText (raceText s)
                           (CANVAS_W - tagW s / 2 - tagMarginRight)
                           (headerY + headerH / 2) ]
                  else [])
              ++ [ Ctx.restore ]).
  { unfold drawHeader, panel, texts. rewrite !str_or_empty.
    rewrite <- !app_assoc. reflexivity. }
  subst usernameX.
  revert Hcalls. unfold drawHeader, reservedRight, tagW, tagH.
  destruct (raceText s) as [|u us] eqn:Erace; simpl truthy; cbv iota;
    intros Hcalls.
  - split; [|split; [|split; reflexivity]].
    + split; [|intros H; now elim H].
      rewrite !in_app_iff. intros [H|[H|[H|[H|H]]]]; exfalso.
      * simpl in H. repeat (destruct H as [H|H]; [discriminate H|]). exact H.
      * now apply Hbase in H.
      * simpl in H. repeat (destruct H as [H|H]; [discriminate H|]). exact H.
      * exact H.
      * simpl in H. repeat (destruct H as [H|H]; [discriminate H|]). exact H.
    + destruct Hempty as [Hempty _]. destruct (Hempty eq_refl) as [Hc Hp].
      split; [exact Hc|]. split; [exact Hp|].
      split; [reflexivity|]. split; [reflexivity|].
      split; [|exact Hcalls].
      intros t. rewrite !in_app_iff. intros [H|[H|[H|[H|H]]]].
      * simpl in H. repeat (destruct H as [H|H]; [discriminate H|]). exact H.
      * now apply Hbase in H.
      * simpl in H.
        repeat (destruct H as [H|H];
                [first [ discriminate H
                       | injection H as _ Hx _;
                         exact (float_neq_compute _ _ eq_refl Hx) ] |]).
        exact H.
      * exact H.
      * simpl in H. repeat (destruct H as [H|H]; [discriminate H|]). exact H.
  - split; [|split; [|split; reflexivity]].
    + split; [discriminate|]. intros _.
      rewrite !in_app_iff. right. right. right. left. left. now left.
    + do 4 (split; [reflexivity|]). split; [|split].
      * match goal with
        | |- exists pre post, ?a ++ ?b ++ ?c ++ (_ ++ _ ++ ?d) ++ ?e = _ =>
            exists (a ++ b ++ c), (d ++ e)
        end.
        rewrite <- !app_assoc. reflexivity.
      * rewrite !in_app_iff. right. right. right. left. right. right.
        simpl. do 4 right. left. reflexivity.
      * rewrite Hcalls, <- !app_assoc. reflexivity.
Qed.

Local Close Scope float_scope.

(** * Further properties *)

Local Open Scope float_scope.

(** ** NaN arguments and repeated clamping *)

Lemma is_nan_eq (a : float) : is_nan a = true -> a = nan.
Proof.
  intros Ha. apply is_nan_spec in Ha. now apply float_of_spec in Ha.
Qed.

Lemma div_nan_l (b : float) : nan / b = nan.
Proof.
  pose proof (div_spec nan b) as E.
  change (Prim2SF nan) with S754_nan in E. now apply float_of_spec in E.
Qed.

Lemma div_nan_r (a : float) : a / nan = nan.
Proof.
  pose proof (div_spec a nan) as E.
  change (Prim2SF nan) with S754_nan in E.
  destruct (Prim2SF a); now apply float_of_spec in E.
Qed.

Lemma mul_nan_r (a : float) : a * nan = nan.
Proof.
  pose proof (mul_spec a nan) as E.
  change (Prim2SF nan) with S754_nan in E.
  destruct (Prim2SF a); now apply float_of_spec in E.
Qed.

Lemma mul_nan_l (b : float) : nan * b = nan.
Proof.
  pose proof (mul_spec nan b) as E.
  change (Prim2SF nan) with S754_nan in E. now apply float_of_spec in E.
Qed.

Lemma float_min_nan_l (b : float) : float_min nan b = nan.
Proof. reflexivity. Qed.

Lemma float_min_nan_r (a : float) : float_min a nan = nan.
Proof. unfold float_min. now destruct (is_nan a). Qed.

Lemma fitContain_nan_ratio (srcW srcH dstW dstH : float) :
  float_min (dstW / srcW) (dstH / srcH) = nan ->
  fitContain srcW srcH dstW dstH = Fit.mk nan nan nan nan.
Proof.
  intros Hr. unfold fitContain. simpl. rewrite Hr, !mul_nan_r, !sub_nan.
  reflexivity.
Qed.

(** X4: on doubles, a NaN in any of the four arguments of [fitContain]
    makes the width, the height and both offsets NaN. *)
Theorem fitContain_nan (srcW srcH dstW dstH : float) :
  is_nan srcW = true \/ is_nan srcH = true
  \/ is_nan dstW = true \/ is_nan dstH = true ->
  fitContain srcW srcH dstW dstH = Fit.mk nan nan nan nan.
Proof.
  intros H. apply fitContain_nan_ratio.
  destruct H as [H|[H|[H|H]]]; apply is_nan_eq in H; subst.
  - now rewrite div_nan_r, float_min_nan_l.
  - now rewrite div_nan_r, float_min_nan_r.
  - now rewrite div_nan_l, float_min_nan_l.
  - now rewrite div_nan_l, float_min_nan_r.
Qed.

Lemma fitContain_nan_witness :
  fitContain nan 200 624 580 = Fit.mk nan nan nan nan
  /\ fitContain 400 200 624 nan = Fit.mk nan nan nan nan.
Proof.
  split.
  - exact (fitContain_nan nan 200 624 580 (or_introl eq_refl)).
  - exact (fitContain_nan 400 200 624 nan
             (or_intror (or_intror (or_intror eq_refl)))).
Defined.

(** X5: on doubles, for all arguments, clamping a clamped radius changes
    nothing, so [roundRect] called with the clamped radius draws the same
    path as with the requested one. *)
Theorem roundRect_clamp_idempotent (x y w h r : float) (fill stroke : bool) :
  clampRadius w h (clampRadius w h r) = clampRadius w h r
  /\ roundRect x y w h (clampRadius w h r) fill stroke
     = roundRect x y w h r fill stroke.
Proof.
  assert (E : clampRadius w h (clampRadius w h r) = clampRadius w h r).
  { unfold clampRadius. simpl.
    set (half := float_min w h / 2).
    destruct (half <? r) eqn:E.
    - now destruct (half <? half).
    - now rewrite E. }
  split; [exact E|]. unfold roundRect. now rewrite E.
Qed.

(** ** The context's state stack *)

Lemma ctx_depth_app (d : nat) (l1 l2 : list Ctx.cmd) :
  ctx_depth d (l1 ++ l2)
  = match ctx_depth d l1 with
    | Some d' => ctx_depth d' l2
    | None => None
    end.
Proof.
  revert d. induction l1 as [|c l1 IH]; intros d; [reflexivity|].
  destruct c; simpl; try apply IH. destruct d; [reflexivity | apply IH].
Qed.

Lemma ctx_depth_neutral (d : nat) (l : list Ctx.cmd) :
  (forall c, In c l -> stack_cmd c = false) -> ctx_depth d l = Some d.
Proof.
  induction l as [|c l IH]; intros Hl; [reflexivity|].
  assert (Hc : stack_cmd c = false) by (apply Hl; now left).
  assert (Hl' : forall c', In c' l -> stack_cmd c' = false)
    by (intros c' Hc'; apply Hl; now right).
  destruct c; try discriminate Hc; simpl; now apply IH.
Qed.

Lemma roundRect_depth (d : nat) (x y w h r : float) (f s : bool) :
  ctx_depth d (roundRect x y w h r f s) = Some d.
Proof.
  apply ctx_depth_neutral. intros c Hc. apply in_roundRect in Hc.
  now destruct c.
Qed.

Lemma drawCells_depth (d : nat) (tech : jsarray) (cols : nat) :
  ctx_depth d (drawCells tech cols) = Some d.
Proof.
  apply ctx_depth_neutral. intros c Hc.
  apply in_drawCells in Hc as (c' & r' & _ & _ & Hc).
  unfold drawCell in Hc. simpl in Hc.
  repeat (destruct Hc as [<-|Hc]; [reflexivity|]). destruct Hc.
Qed.

Ltac depth_step :=
  first [ rewrite roundRect_depth | rewrite drawCells_depth
        | rewrite ctx_depth_app
        | progress (cbn -[roundRect drawCells]) ].

Lemma drawFrame_depth (style : FrameStyle) :
  ctx_depth 0 (drawFrame style) = Some 0%nat.
Proof.
  unfold drawFrame. repeat depth_step. reflexivity.
Qed.

Lemma drawIllustration_depth (img : option Image.t) :
  ctx_depth 0 (drawIllustration img) = Some 0%nat.
Proof.
  unfold drawIllustration. repeat depth_step.
  now destruct img.
Qed.

Lemma drawHeader_depth (s : State) :
  ctx_depth 0 (drawHeader s) = Some 0%nat.
Proof.
  unfold drawHeader. repeat depth_step.
  destruct (truthy (raceText s)); [|reflexivity].
  repeat depth_step. reflexivity.
Qed.

Lemma drawLabels_depth (s : State) :
  ctx_depth 0 (drawLabels s) = Some 0%nat.
Proof.
  unfold drawLabels. rewrite !ctx_depth_app. simpl.
  now destruct (truthy (exName s)), (truthy (battleMeme s)).
Qed.

Lemma drawGrid_depth (s : State) :
  ctx_depth 0 (drawGrid s) = Some 0%nat.
Proof.
  unfold drawGrid. repeat depth_step. reflexivity.
Qed.

(** X6: for every state and image, the redraw pairs each [save] with a
    [restore]: the context's state stack never underflows and is back at
    its initial depth at the end, also over consecutive redraws. *)
Theorem redraw_stack_balanced (s1 s2 : State) (img1 img2 : option Image.t) :
  ctx_depth 0 (redraw s1 img1) = Some 0%nat
  /\ ctx_depth 0 (redraw s1 img1 ++ redraw s2 img2) = Some 0%nat.
Proof.
  assert (H : forall s img, ctx_depth 0 (redraw s img) = Some 0%nat).
  { intros s img. unfold redraw.
    rewrite ctx_depth_app, drawFrame_depth. cbv beta iota.
    rewrite ctx_depth_app, drawIllustration_depth. cbv beta iota.
    rewrite ctx_depth_app, drawHeader_depth. cbv beta iota.
    rewrite ctx_depth_app, drawLabels_depth. cbv beta iota.
    apply drawGrid_depth. }
  split; [apply H|]. rewrite ctx_depth_app, H. apply H.
Qed.

(** ** The texts a redraw draws *)

Ltac literal_texts H :=
  simpl in H;
  repeat (destruct H as [H|H]; [try discriminate H|]);
  try (exfalso; exact H).

Lemma fillText_not_path (t : jsstring) (x y a b w h r : float) (f s : bool) :
  ~ In (Ctx.fillText t x y) (roundRect a b w h r f s).
Proof. intros H. apply in_roundRect in H. discriminate H. Qed.

Lemma fillText_in_drawFrame (style : FrameStyle) (t : jsstring) (x y : float) :
  ~ In (Ctx.fillText t x y) (drawFrame style).
Proof.
  unfold drawFrame. rewrite !in_app_iff.
  intros [H|[H|[H|[H|H]]]];
    try (now apply fillText_not_path in H); literal_texts H.
Qed.

Lemma fillText_in_drawIllustration (img : option Image.t)
    (t : jsstring) (x y : float) :
  In (Ctx.fillText t x y) (drawIllustration img)
  <-> img = None /\ t = js "Illustration" /\ x = 360 /\ y = 470.
Proof.
  unfold drawIllustration. rewrite !in_app_iff. split.
  - intros [H|[H|[H|H]]].
    + literal_texts H.
    + now apply fillText_not_path in H.
    + destruct img; literal_texts H. injection H as <- <- <-. auto.
    + literal_texts H.
  - intros (-> & -> & -> & ->). right. right. left. simpl. auto.
Qed.

Lemma fillText_in_drawHeader (s : State) (t : jsstring) (x y : float) :
  In (Ctx.fillText t x y) (drawHeader s)
  <-> (t = title s /\ x = 48 /\ y = 98)
      \/ (t = username s /\ y = 98
          /\ x = if truthy (raceText s) then 560 else 672)
      \/ (t = monsterName s /\ x = 360 /\ y = 152)
      \/ (raceText s <> [] /\ t = raceText s /\ x = 648 /\ y = 130).
Proof.
  unfold drawHeader, reservedRight, tagW, tagH.
  rewrite !str_or_empty.
  destruct (raceText s) as [|u us] eqn:Erace; simpl truthy; cbv iota;
    rewrite !in_app_iff; split.
  - intros [H|[H|[H|[H|H]]]].
    + literal_texts H.
    + now apply fillText_not_path in H.
    + literal_texts H; injection H as <- <- <-; auto 8.
    + destruct H.
    + literal_texts H.
  - intros [(-> & -> & ->)|[(-> & -> & ->)|[(-> & -> & ->)|(Hne & _)]]].
    + right. right. left. simpl. auto 8.
    + right. right. left. simpl. do 6 right. left. reflexivity.
    + right. right. left. simpl. do 9 right. left. reflexivity.
    + now elim Hne.
  - intros [H|[H|[H|[H|H]]]].
    + literal_texts H.
    + now apply fillText_not_path in H.
    + literal_texts H; injection H as <- <- <-; auto 8.
    + destruct H as [H|[H|H]];
        [literal_texts H | now apply fillText_not_path in H |].
      literal_texts H. injection H as <- <- <-.
      right. right. right. repeat split; trivial. discriminate.
    + literal_texts H.
  - intros [(-> & -> & ->)|[(-> & -> & ->)|[(-> & -> & ->)|(_ & -> & -> & ->)]]].
    + right. right. left. simpl. auto 8.
    + right. right. left. simpl. do 6 right. left. reflexivity.
    + right. right. left. simpl. do 9 right. left. reflexivity.
    + right. right. right. left. right. right.
      simpl. do 4 right. left. reflexivity.
Qed.

Lemma fillText_in_drawLabels (s : State) (t : jsstring) (x y : float) :
  In (Ctx.fillText t x y) (drawLabels s)
  <-> (exName s <> [] /\ t = js "EX: " ++ exName s /\ x = 48 /\ y = 796)
      \/ (battleMeme s <> [] /\ t = js "Battle Meme: " ++ battleMeme s
          /\ x = 48 /\ y = if truthy (exName s) then 822 else 796).
Proof.
  unfold drawLabels. rewrite !in_app_iff.
  destruct (exName s) as [|e es], (battleMeme s) as [|b bs];
    simpl truthy; cbv iota; split.
  - intros [H|[H|[H|H]]]; literal_texts H.
  - intros [(Hne & _)|(Hne & _)]; now elim Hne.
  - intros [H|[H|[H|H]]]; literal_texts H.
    injection H as <- <- <-. right. repeat split; trivial. discriminate.
  - intros [(Hne & _)|(_ & -> & -> & ->)]; [now elim Hne|].
    right. right. left. now left.
  - intros [H|[H|[H|H]]]; literal_texts H.
    injection H as <- <- <-. left. repeat split; trivial. discriminate.
  - intros [(_ & -> & -> & ->)|(Hne & _)]; [|now elim Hne].
    right. left. now left.
  - intros [H|[H|[H|H]]]; literal_texts H.
    + injection H as <- <- <-. left. repeat split; trivial. discriminate.
    + injection H as <- <- <-. right. repeat split; trivial. discriminate.
  - intros [(_ & -> & -> & ->)|(_ & -> & -> & ->)].
    + right. left. now left.
    + right. right. left. now left.
Qed.

Lemma fillText_in_drawGrid_cell (s : State) (t : jsstring) (x y : float) :
  In (Ctx.fillText t x y) (drawGrid s) ->
  exists c r, (c < classCount s)%nat /\ (r < 6)%nat
              /\ t = take 18 (techniqueInputValue s c r).
Proof.
  intros H. apply fillText_in_drawGrid, in_drawCells in H
    as (c & r & Hc & Hr & H).
  apply fillText_in_drawCell in H as (-> & _). exists c, r.
  repeat split; trivial. unfold techniqueInputValue.
  change 18%Z with (Z.of_nat 18). apply slice_prefix.
Qed.

(** X7: the only texts a redraw draws are the title, the username, the
    monster name, the race text, the "EX: " and "Battle Meme: " lines of
    non-empty fields, the placeholder caption when there is no image, and
    the 18-unit prefixes of the technique inputs of the displayed classes. *)
Theorem redraw_texts (s : State) (img : option Image.t)
    (t : jsstring) (x y : float) :
  In (Ctx.fillText t x y) (redraw s img) ->
  t = title s \/ t = username s \/ t = monsterName s \/ t = raceText s
  \/ (exName s <> [] /\ t = js "EX: " ++ exName s)
  \/ (battleMeme s <> [] /\ t = js "Battle Meme: " ++ battleMeme s)
  \/ (img = None /\ t = js "Illustration")
  \/ exists c r, (c < classCount s)%nat /\ (r < 6)%nat
                 /\ t = take 18 (techniqueInputValue s c r).
Proof.
  unfold redraw. rewrite !in_app_iff. intros [H|[H|[H|[H|H]]]].
  - now apply fillText_in_drawFrame in H.
  - apply fillText_in_drawIllustration in H as (-> & -> & _). auto 10.
  - apply fillText_in_drawHeader in H
      as [(-> & _)|[(-> & _)|[(-> & _)|(_ & -> & _)]]]; auto 10.
  - apply fillText_in_drawLabels in H
      as [(Hne & -> & _)|(Hne & -> & _)]; auto 10.
  - apply fillText_in_drawGrid_cell in H. auto 10.
Qed.

Lemma redraw_texts_witness :
  let s := handle (ChangeExName [65%N]) initial in
  In (Ctx.fillText (js "EX: " ++ [65%N]) 48 796) (redraw s None)
  /\ (js "EX: " ++ [65%N] = title s \/ js "EX: " ++ [65%N] = username s
      \/ js "EX: " ++ [65%N] = monsterName s \/ js "EX: " ++ [65%N] = raceText s
      \/ (exName s <> [] /\ js "EX: " ++ [65%N] = js "EX: " ++ exName s)
      \/ (battleMeme s <> [] /\ js "EX: " ++ [65%N] = js "Battle Meme: " ++ battleMeme s)
      \/ (@None Image.t = None /\ js "EX: " ++ [65%N] = js "Illustration")
      \/ exists c r, (c < classCount s)%nat /\ (r < 6)%nat
           /\ js "EX: " ++ [65%N] = take 18 (techniqueInputValue s c r)).
Proof.
  intros s.
  assert (Hin : In (Ctx.fillText (js "EX: " ++ [65%N]) 48 796) (redraw s None)).
  { unfold redraw. rewrite !in_app_iff. right. right. right. left.
    unfold drawLabels. rewrite !in_app_iff. right. left. now left. }
  split; [exact Hin|].
  exact (redraw_texts s None _ _ _ Hin).
Defined.

(** X8: after a reset, every text the redraw draws is the empty string, the
    first preset race, or the placeholder caption of a missing image. *)
Theorem reset_clears_canvas_text (s : State) (img : option Image.t)
    (t : jsstring) (x y : float) :
  In (Ctx.fillText t x y) (redraw (reset s) img) ->
  t = [] \/ t = [0x9b54; 0x65cf]%N \/ (img = None /\ t = js "Illustration").
Proof.
  unfold redraw. rewrite !in_app_iff. intros [H|[H|[H|[H|H]]]].
  - now apply fillText_in_drawFrame in H.
  - apply fillText_in_drawIllustration in H as (-> & -> & _). auto.
  - apply fillText_in_drawHeader in H
      as [(-> & _)|[(-> & _)|[(-> & _)|(_ & -> & _)]]]; auto.
  - apply fillText_in_drawLabels in H as [(Hne & _)|(Hne & _)]; now elim Hne.
  - apply fillText_in_drawGrid_cell in H as (c & r & _ & _ & ->). left.
    unfold techniqueInputValue.
    change (techniques (reset s)) with (replicate 24 (Some ([] : jsstring))).
    unfold array_get.
    destruct (replicate 24 (Some []) !! (c * 6 + r)%nat) as [v|] eqn:E;
      [|reflexivity].
    apply lookup_replicate in E as [-> _]. reflexivity.
Qed.

Lemma reset_clears_canvas_text_witness :
  In (Ctx.fillText [0x9b54; 0x65cf]%N 648 130)
     (redraw (reset (handle (ChangeTitle [65%N]) initial)) None)
  /\ ([0x9b54; 0x65cf]%N = ([] : jsstring)
      \/ [0x9b54; 0x65cf]%N = [0x9b54; 0x65cf]%N
      \/ (@None Image.t = None /\ [0x9b54; 0x65cf]%N = js "Illustration")).
Proof.
  assert (Hin : In (Ctx.fillText [0x9b54; 0x65cf]%N 648 130)
                  (redraw (reset (handle (ChangeTitle [65%N]) initial)) None)).
  { unfold redraw. rewrite !in_app_iff. right. right. left.
    apply fillText_in_drawHeader. right. right. right.
    repeat split. discriminate. }
  split; [exact Hin|].
  exact (reset_clears_canvas_text _ None _ _ _ Hin).
Defined.

(** ** Header and labels *)

(** X9: the header draws exactly these texts: the title at (48, 98), the
    username at (560, 98) with a race badge and (672, 98) without, the
    monster name at (360, 152), each in full, and the race text at
    (648, 130) when it is non-empty. *)
Theorem header_texts (s : State) (t : jsstring) (x y : float) :
  In (Ctx.fillText t x y) (drawHeader s)
  <-> (t = title s /\ x = 48 /\ y = 98)
      \/ (t = username s /\ y = 98
          /\ x = if truthy (raceText s) then 560 else 672)
      \/ (t = monsterName s /\ x = 360 /\ y = 152)
      \/ (raceText s <> [] /\ t = raceText s /\ x = 648 /\ y = 130).
Proof. apply fillText_in_drawHeader. Qed.

(** X10: the label block draws the "EX: " line at y = 796 when exName is
    non-empty, and the "Battle Meme: " line when battleMeme is non-empty, at
    y = 822 below an EX line and at y = 796 when there is none; it draws
    nothing else. *)
Theorem labels_stack (s : State) (t : jsstring) (x y : float) :
  In (Ctx.fillText t x y) (drawLabels s)
  <-> (exName s <> [] /\ t = js "EX: " ++ exName s /\ x = 48 /\ y = 796)
      \/ (battleMeme s <> [] /\ t = js "Battle Meme: " ++ battleMeme s
          /\ x = 48 /\ y = if truthy (exName s) then 822 else 796).
Proof. apply fillText_in_drawLabels. Qed.

(** ** More invariants of the reachable states *)

Lemma preset_nonempty (v : jsstring) : v ∈ DEFAULT_RACES -> v <> [].
Proof.
  intros Hv Hnil. subst v. apply list_elem_of_In in Hv. simpl in Hv.
  repeat (destruct Hv as [Hv|Hv]; [discriminate Hv|]). exact Hv.
Qed.

Lemma reachable_preset (s : State) : reachable s -> racePreset s ∈ DEFAULT_RACES.
Proof.
  induction 1 as [|s e _ IH He].
  - apply list_elem_of_In. simpl. auto.
  - destruct e; simpl in *; trivial.
    apply list_elem_of_In. simpl. auto.
Qed.

(** X11: in every reachable state the preset race is one of
    [DEFAULT_RACES], so the race text is non-empty: the badge is drawn, the
    reserved width is 112 and the username is drawn at x = 560, never at
    the no-badge position x = 672. *)
Theorem reachable_badge_always (s : State) :
  reachable s ->
  racePreset s ∈ DEFAULT_RACES
  /\ raceText s <> []
  /\ reservedRight s = 112
  /\ In (Ctx.fillStyle (Ctx.color "#ef4444")) (drawHeader s)
  /\ In (Ctx.fillText (raceText s) 648 130) (drawHeader s)
  /\ In (Ctx.fillText (username s) 560 98) (drawHeader s)
  /\ forall t, ~ In (Ctx.fillText t 672 98) (drawHeader s).
Proof.
  intros Hs. pose proof (reachable_preset s Hs) as Hp.
  assert (Hne : raceText s <> []).
  { intros E. apply raceText_empty in E as [_ E].
    now apply (preset_nonempty _ Hp). }
  assert (Ht : truthy (raceText s) = true)
    by (destruct (raceText s); [now elim Hne | reflexivity]).
  split; [exact Hp|]. split; [exact Hne|].
  split; [unfold reservedRight, tagW; rewrite Ht; reflexivity|].
  split.
  { unfold drawHeader. rewrite Ht, !in_app_iff.
    right. right. right. left. left. now left. }
  split; [apply fillText_in_drawHeader; auto 8|].
  split.
  { apply fillText_in_drawHeader. right. left. rewrite Ht. auto. }
  intros t H. apply fillText_in_drawHeader in H. rewrite Ht in H.
  destruct H as [(_ & Hx & _)|[(_ & _ & Hx)|[(_ & Hx & _)|(_ & _ & Hx & _)]]];
    match type of Hx with
    | ?a = ?b => exact (float_neq_compute a b eq_refl Hx)
    end.
Qed.

Lemma reachable_badge_always_witness :
  let s := handle (ChangeRaceCustom []) (handle ClickReset initial) in
  reachable s /\ raceText s <> [] /\ reservedRight s = 112.
Proof.
  intros s.
  assert (Hs : reachable s).
  { apply reachable_handle; [|exact I].
    apply reachable_handle; [apply reachable_initial | exact I]. }
  pose proof (reachable_badge_always s Hs) as H.
  split; [exact Hs|].
  exact (conj (proj1 (proj2 H)) (proj1 (proj2 (proj2 H)))).
Defined.

Lemma reachable_no_holes (s : State) :
  reachable s -> Forall (fun v => v <> None) (techniques s).
Proof.
  induction 1 as [|s e Hs IH He].
  - apply Forall_replicate. discriminate.
  - destruct e; simpl in *; trivial.
    + destruct He as [Hc Hr]. destruct (reachable_inv s Hs) as [Hlen Hcc].
      unfold array_set. rewrite decide_True by lia.
      apply Forall_insert; [exact IH | discriminate].
    + apply Forall_replicate. discriminate.
Qed.

(** X12: in every reachable state each of the 24 technique slots holds a
    string (no hole), indices from 24 on read as undefined, and the input of
    a displayed class shows the slot's own string. *)
Theorem reachable_techniques_all_strings (s : State) (i : nat) :
  reachable s ->
  ((i < 24)%nat -> exists v, array_get (techniques s) i = Some v)
  /\ ((24 <= i)%nat -> array_get (techniques s) i = None)
  /\ forall c r, (c < classCount s)%nat -> (r < 6)%nat ->
       array_get (techniques s) (c * 6 + r) = Some (techniqueInputValue s c r).
Proof.
  intros Hs. destruct (reachable_inv s Hs) as [Hlen Hcc].
  pose proof (reachable_no_holes s Hs) as Hall.
  assert (Hget : forall j, (j < 24)%nat ->
                   exists v, array_get (techniques s) j = Some v).
  { intros j Hj. unfold array_get.
    destruct (lookup_lt_is_Some_2 (techniques s) j) as [v Hv]; [lia|].
    rewrite Hv. rewrite Forall_lookup in Hall. specialize (Hall j v Hv).
    destruct v as [v|]; [now exists v | now elim Hall]. }
  split; [apply Hget|]. split.
  - intros Hi. apply array_get_past_end. lia.
  - intros c r Hc Hr. unfold techniqueInputValue.
    destruct (Hget (c * 6 + r)%nat) as [v Hv]; [lia|].
    rewrite Hv. simpl. now rewrite str_or_empty.
Qed.

Lemma reachable_techniques_all_strings_witness :
  let s := handle (ChangeTechnique 0 2 [65%N]) initial in
  reachable s /\ exists v, array_get (techniques s) 2 = Some v.
Proof.
  intros s.
  assert (Hs : reachable s).
  { apply reachable_handle; [apply reachable_initial | simpl; lia]. }
  split; [exact Hs|].
  exact (proj1 (reachable_techniques_all_strings s 2 Hs) ltac:(lia)).
Defined.

(** ** Reset and the other handlers *)

(** X13: a reset after any content edit gives the same state as a reset
    alone; a reset commutes with the layout events (frame, class count) and
    with the making of the placeholder; a second reset changes nothing. *)
Theorem reset_forgets_content (e : Event) (s : State) :
  (if content_event e
   then reset (handle e s) = reset s
   else reset (handle e s) = handle e (reset s))
  /\ reset (reset s) = reset s.
Proof. split; [destruct e|]; reflexivity. Qed.

(** ** Editing a technique, seen on the canvas *)

(** X14: in a reachable state, typing [v] into the technique input of a
    displayed class [c], row [r] makes that input show [v] and the canvas
    cell show the first 18 code units of [v]; every other displayed input
    and canvas cell is as before. *)
Theorem edit_changes_one_cell (s : State) (c r c' r' : nat) (v : jsstring) :
  reachable s ->
  (c < classCount s)%nat -> (r < 6)%nat ->
  (c' < classCount s)%nat -> (r' < 6)%nat -> (c', r') <> (c, r) ->
  let s' := handle (ChangeTechnique c r v) s in
  let cols := classCount s in
  let textX k := gx + num (N.of_nat k) * cellW cols + 8 in
  let textY k := gy + num (N.of_nat k) * cellH + cellH / 2 in
  techniqueInputValue s' c r = v
  /\ (forall t, In (Ctx.fillText t (textX c) (textY r)) (drawGrid s')
                <-> t = take 18 v)
  /\ techniqueInputValue s' c' r' = techniqueInputValue s c' r'
  /\ (forall t, In (Ctx.fillText t (textX c') (textY r')) (drawGrid s')
                <-> In (Ctx.fillText t (textX c') (textY r')) (drawGrid s)).
Proof.
  intros Hs Hc Hr Hc' Hr' Hne s' cols textX textY.
  destruct (reachable_inv s Hs) as [Hlen Hcc].
  assert (Hidx : (c' * 6 + r')%nat <> (c * 6 + r)%nat).
  { intros E. apply Hne. f_equal; lia. }
  assert (Esame : array_get (techniques s') (c * 6 + r) = Some v)
    by apply array_get_set_eq.
  assert (Eother : array_get (techniques s') (c' * 6 + r')
                   = array_get (techniques s) (c' * 6 + r'))
    by now apply array_get_set_ne.
  split; [unfold techniqueInputValue; rewrite Esame; apply str_or_empty|].
  split.
  { intros t. rewrite fillText_in_drawGrid.
    change (classCount s') with cols.
    subst textX textY. cbv beta. rewrite grid_text_at by (trivial; lia).
    rewrite Esame. simpl undef_or. rewrite str_or_empty.
    change 18%Z with (Z.of_nat 18). now rewrite slice_prefix. }
  split; [unfold techniqueInputValue; now rewrite Eother|].
  intros t. rewrite !fillText_in_drawGrid.
  change (classCount s') with (classCount s).
  subst textX textY cols. cbv beta.
  rewrite !grid_text_at by (trivial; lia). now rewrite Eother.
Qed.

Lemma edit_changes_one_cell_witness :
  let s := handle (ChangeClassCount 2) initial in
  let s' := handle (ChangeTechnique 1 1 (replicate 30 65%N)) s in
  reachable s
  /\ techniqueInputValue s' 1 1 = replicate 30 65%N
  /\ (forall t, In (Ctx.fillText t 368 892) (drawGrid s')
                <-> t = replicate 18 65%N)
  /\ (forall t, In (Ctx.fillText t 56 852) (drawGrid s')
                <-> In (Ctx.fillText t 56 852) (drawGrid s)).
Proof.
  intros s s'.
  assert (Hs : reachable s).
  { apply reachable_handle; [apply reachable_initial | simpl; lia]. }
  pose proof (edit_changes_one_cell s 1 1 0 0 (replicate 30 65%N) Hs
                ltac:(simpl; lia) ltac:(lia) ltac:(simpl; lia) ltac:(lia)
                ltac:(discriminate)) as H.
  cbv zeta in H. destruct H as (Hv & Hcell & _ & Hother).
  split; [exact Hs|]. split; [exact Hv|]. split; [exact Hcell | exact Hother].
Defined.

(** ** Geometry of the grid *)

(** X15: for [classCount] in [1, 4] the stroked cells tile the grid panel
    exactly: a cell's right edge is the next column's left edge, its bottom
    edge the next row's top edge, and the cells span x from 48 to 672 and y
    from 832 to 1072. *)
Theorem grid_cells_tile (s : State) (c r : nat) :
  (1 <= classCount s <= 4)%nat -> (c < classCount s)%nat -> (r < 6)%nat ->
  let cols := classCount s in
  let x k := gx + num (N.of_nat k) * cellW cols in
  let y k := gy + num (N.of_nat k) * cellH in
  In (Ctx.strokeRect (x c) (y r) (cellW cols) cellH) (drawGrid s)
  /\ x c + cellW cols = x (S c) /\ y r + cellH = y (S r)
  /\ x 0%nat = 48 /\ x cols = 672 /\ y 0%nat = 832 /\ y 6%nat = 1072
  /\ x cols = gx + gridW /\ y 6%nat = gy + gridH.
Proof.
  intros Hcols Hc Hr cols x y.
  split.
  { apply in_drawGrid, in_drawCells. exists c, r.
    repeat split; trivial. apply strokeRect_in_drawCell. }
  assert (Hok : tiles_ok cols = true).
  { subst cols.
    assert (E : classCount s = 1%nat \/ classCount s = 2%nat
                \/ classCount s = 3%nat \/ classCount s = 4%nat) by lia.
    destruct E as [-> | [-> | [-> | ->]]]; vm_compute; reflexivity. }
  unfold tiles_ok in Hok. rewrite !andb_true_iff, !forallb_forall in Hok.
  destruct Hok as (((((Hx & Hy) & Hx0) & Hxn) & Hy0) & Hyn).
  apply FloatAxioms.Leibniz.eqb_spec in Hx0, Hxn, Hy0, Hyn.
  assert (Ex : x c + cellW cols = x (S c)).
  { apply FloatAxioms.Leibniz.eqb_spec, Hx, in_seq. lia. }
  assert (Ey : y r + cellH = y (S r)).
  { apply FloatAxioms.Leibniz.eqb_spec, Hy, in_seq. lia. }
  split; [exact Ex|]. split; [exact Ey|].
  split; [exact Hx0|]. split; [exact (eq_trans Hxn eq_refl)|].
  split; [exact Hy0|]. split; [exact (eq_trans Hyn eq_refl)|].
  split; [exact Hxn | exact Hyn].
Qed.

Lemma grid_cells_tile_witness :
  let s := handle (ChangeClassCount 3) initial in
  In (Ctx.strokeRect 464 1032 208 40) (drawGrid s)
  /\ (464 + cellW 3 = 672)%float.
Proof.
  intros s.
  pose proof (grid_cells_tile s 2 5 ltac:(simpl; lia) ltac:(simpl; lia)
                ltac:(lia)) as H.
  cbv zeta in H. destruct H as (Hin & Hx & _).
  split; [exact Hin | exact Hx].
Defined.

(** ** The download name, the frame styles, the illustration source *)

(** X16: the download name is a non-empty stem followed by ".png": the
    title when it is non-empty, "card" otherwise, hence "card.png" after a
    reset. *)
Theorem downloadName_png (s : State) :
  (exists stem, downloadName s = stem ++ js ".png" /\ stem <> []
                /\ (title s <> [] -> stem = title s))
  /\ (title s = [] -> downloadName s = js "card.png")
  /\ downloadName (reset s) = js "card.png"
  /\ (5 <= length (downloadName s))%nat.
Proof.
  unfold downloadName, str_or.
  destruct (title s) as [|a l] eqn:E; simpl truthy; cbv iota.
  - split; [exists (js "card"); repeat split; [discriminate | now intros H]|].
    repeat split. simpl. lia.
  - split; [exists (a :: l); repeat split; discriminate|].
    split; [discriminate|]. split; [reflexivity|].
    rewrite length_app. simpl. lia.
Qed.

(** X17: different frame styles give different frame drawings, and so
    different redraws of the same card. *)
Theorem drawFrame_distinguishes_styles (f f' : FrameStyle) (s : State)
    (img : option Image.t) :
  (drawFrame f = drawFrame f' -> f = f')
  /\ (redraw (setFrame f s) img = redraw (setFrame f' s) img -> f = f').
Proof.
  assert (H : drawFrame f = drawFrame f' -> f = f').
  { destruct f, f'; intros E; try reflexivity; discriminate E. }
  split; [exact H|]. unfold redraw. intros E.
  apply H. change (frame (setFrame f s)) with f in E.
  change (frame (setFrame f' s)) with f' in E.
  apply (f_equal (take (length (drawFrame f)))) in E.
  rewrite take_app_length in E.
  replace (length (drawFrame f)) with (length (drawFrame f')) in E
    by (destruct f, f'; reflexivity).
  now rewrite take_app_length in E.
Qed.

(** X18: the illustration source is missing only while the placeholder is;
    no event removes the placeholder once made; with the default selected
    the source is the placeholder; choosing upload after a reset shows the
    placeholder, while toggling default and back keeps the upload. *)
Theorem illustSrc_fallback (s : State) (e : Event) :
  (illustSrc s = None -> checker s = None)
  /\ (checker s <> None -> checker (handle e s) <> None)
  /\ (useDefaultIllust s = true -> illustSrc s = checker s)
  /\ illustSrc (handle (ChooseIllust false) (handle ClickReset s)) = checker s
  /\ illustSrc (handle (ChooseIllust false) (handle (ChooseIllust true) s))
     = illustSrc (handle (ChooseIllust false) s).
Proof.
  split; [|split; [|split; [|split; reflexivity]]].
  - unfold illustSrc. destruct (useDefaultIllust s); trivial.
    destruct (uploadURL s) as [u|]; trivial.
    destruct (truthy u); [discriminate | trivial].
  - destruct e; simpl; trivial. discriminate.
  - unfold illustSrc. now intros ->.
Qed.

Local Close Scope float_scope.
